(** * aps-disconnected: the manifest resolver, the derivative file
      enumerator and the offline cache controller

    A shallow embedding of the server's model routes (the code that turns
    a Model Derivative manifest into a list of derivatives and their files)
    and of [public/service-worker.js] (the worker that caches, clears and
    lists the URLs of a model), together with the properties the
    specification states about them.  It goes on with the access token and
    the handler of the route, the installation of the worker and its
    interception of requests, and the tasks the page submits.

    JavaScript strings are modelled as [string], read as the UTF-8 bytes of
    the text.  A property that holds a string or is missing is a [Value];
    code that may throw returns a [JsResult].  The numbers of the access
    token are IEEE 754 doubles, as in JavaScript. *)

Set Warnings "-register-all".

From Stdlib Require Import ZArith NArith List Bool Ascii String Lia Permutation.
From Stdlib Require Import Floats.
Import ListNotations.

Local Open Scope string_scope.
Local Open Scope list_scope.
Local Open Scope Z_scope.

(** String concatenation, the [+] of JavaScript on strings. *)
Notation "a +++ b" := (String.append a b) (right associativity, at level 60).

(* ================================================================== *)
(** ** The JavaScript primitives the two files rely on *)
(* ================================================================== *)

Module JS.

(** The outcome of an expression that may throw, or of an awaited promise
    that may reject; the error is kept as the text [err.toString()] gives. *)
Inductive JsResult (A : Type) : Type :=
| Ok (a : A)
| Throw (err : string).
Arguments Ok {A} a.
Arguments Throw {A} err.

Definition bind {A B} (m : JsResult A) (k : A -> JsResult B) : JsResult B :=
  match m with
  | Ok a => k a
  | Throw e => Throw e
  end.

Notation "'let!' x ':=' m 'in' k" := (bind m (fun x => k))
  (at level 10, x name, m at level 100, k at level 200).

Definition is_ok {A} (m : JsResult A) : bool :=
  match m with Ok _ => true | Throw _ => false end.

(** A property read from a JSON object or a message: a string, [null], or
    [undefined] when the property is absent. *)
Inductive Value :=
| Undefined
| Null
| Str (s : string).

(** [ToString], as applied by string concatenation, template literals and
    the string built-ins. *)
Definition toString (v : Value) : string :=
  match v with
  | Undefined => "undefined"
  | Null => "null"
  | Str s => s
  end.

(** *** String.prototype *)

Fixpoint startsWith (s p : string) {struct p} : bool :=
  match p, s with
  | EmptyString, _ => true
  | String a p', String b s' => Ascii.eqb a b && startsWith s' p'
  | String _ _, EmptyString => false
  end.

(** Position of the first occurrence of [p] in [s]. *)
Fixpoint search (s p : string) : option nat :=
  if startsWith s p then Some O
  else match s with
       | EmptyString => None
       | String _ s' => option_map S (search s' p)
       end.

(** Position of the last occurrence of [p] in [s]. *)
Fixpoint searchLast (s p : string) : option nat :=
  match s with
  | EmptyString => if startsWith s p then Some O else None
  | String _ s' =>
      match searchLast s' p with
      | Some n => Some (S n)
      | None => if startsWith s p then Some O else None
      end
  end.

Definition position (o : option nat) : Z :=
  match o with
  | Some n => Z.of_nat n
  | None => -1
  end.

Definition indexOf (s p : string) : Z := position (search s p).
Definition lastIndexOf (s p : string) : Z := position (searchLast s p).

Definition includes (s p : string) : bool :=
  match search s p with
  | Some _ => true
  | None => false
  end.

Fixpoint skip (n : nat) (s : string) : string :=
  match n, s with
  | O, _ => s
  | S n', String _ s' => skip n' s'
  | S _, EmptyString => EmptyString
  end.

Fixpoint take (n : nat) (s : string) : string :=
  match n, s with
  | S n', String c s' => String c (take n' s')
  | _, _ => EmptyString
  end.

(** A relative index of [slice]: negative counts from the end, and the
    result is clamped to the string. *)
Definition clamp (len i : Z) : Z :=
  if i <? 0 then Z.max (len + i) 0 else Z.min i len.

(** [s.slice(from, to)]; [to = None] is the one-argument form. *)
Definition slice (s : string) (from : Z) (to : option Z) : string :=
  let len := Z.of_nat (String.length s) in
  let a := clamp len from in
  let b := match to with Some t => clamp len t | None => len end in
  take (Z.to_nat (Z.max (b - a) 0)) (skip (Z.to_nat a) s).

(** [s.replace(/^p/, '')] for a literal [p]: the prefix is removed when it
    is there. *)
Definition replacePrefix (s p : string) : string :=
  if startsWith s p then skip (String.length p) s else s.

(** *** decodeURIComponent and encodeURIComponent *)

Definition hexval (c : ascii) : option N :=
  let n := N_of_ascii c in
  if ((48 <=? n) && (n <=? 57))%N then Some (n - 48)%N
  else if ((65 <=? n) && (n <=? 70))%N then Some (n - 55)%N
  else if ((97 <=? n) && (n <=? 102))%N then Some (n - 87)%N
  else None.

(** The input of the decoder, escapes resolved: a character taken as it
    is, or the byte an escape [%XX] stands for. *)
Inductive Unit := Lit (c : ascii) | Esc (b : N).

Definition malformed : string := "URIError: URI malformed".

(** Every [%] must be followed by two hexadecimal digits. *)
Fixpoint unescape (s : string) : JsResult (list Unit) :=
  match s with
  | EmptyString => Ok []
  | String c rest =>
      if Ascii.eqb c "%" then
        match rest with
        | String h (String l rest') =>
            match hexval h, hexval l with
            | Some x, Some y =>
                let! us := unescape rest' in Ok (Esc (16 * x + y)%N :: us)
            | _, _ => Throw malformed
            end
        | _ => Throw malformed
        end
      else let! us := unescape rest in Ok (Lit c :: us)
  end.

Definition between (lo hi b : N) : bool := ((lo <=? b) && (b <=? hi))%N.
Definition cont (b : N) : bool := between 128 191 b.

Definition emit (bs : list N) (k : JsResult string) : JsResult string :=
  let! r := k in
  Ok (fold_right (fun b acc => String (ascii_of_N b) acc) r bs).

(** Escaped bytes below 0x80 stand for themselves; the others must spell
    a well-formed UTF-8 sequence, all of it escaped. *)
Fixpoint utf8 (us : list Unit) : JsResult string :=
  match us with
  | [] => Ok EmptyString
  | Lit c :: r => let! t := utf8 r in Ok (String c t)
  | Esc b :: r =>
      if (b <? 128)%N then emit [b] (utf8 r)
      else if between 194 223 b then
        match r with
        | Esc c1 :: r1 =>
            if cont c1 then emit [b; c1] (utf8 r1) else Throw malformed
        | _ => Throw malformed
        end
      else if between 224 239 b then
        match r with
        | Esc c1 :: Esc c2 :: r2 =>
            if between (if (b =? 224)%N then 160 else 128)
                       (if (b =? 237)%N then 159 else 191) c1 && cont c2
            then emit [b; c1; c2] (utf8 r2) else Throw malformed
        | _ => Throw malformed
        end
      else if between 240 244 b then
        match r with
        | Esc c1 :: Esc c2 :: Esc c3 :: r3 =>
            if between (if (b =? 240)%N then 144 else 128)
                       (if (b =? 244)%N then 143 else 191) c1
               && cont c2 && cont c3
            then emit [b; c1; c2; c3] (utf8 r3) else Throw malformed
        | _ => Throw malformed
        end
      else Throw malformed
  end.

Definition decodeURIComponent (s : string) : JsResult string :=
  let! us := unescape s in utf8 us.

Definition hexdigit (n : N) : ascii :=
  ascii_of_N (if (n <? 10)%N then n + 48 else n + 55)%N.

(** The characters [encodeURIComponent] leaves alone: letters, digits and
    [- _ . ! ~ * ' ( )]. *)
Definition unreserved (c : ascii) : bool :=
  let n := N_of_ascii c in
  between 65 90 n || between 97 122 n || between 48 57 n
  || existsb (N.eqb n) [45; 95; 46; 33; 126; 42; 39; 40; 41]%N.

Fixpoint encodeURIComponent (s : string) : string :=
  match s with
  | EmptyString => EmptyString
  | String c rest =>
      if unreserved c then String c (encodeURIComponent rest)
      else
        let n := N_of_ascii c in
        String "%" (String (hexdigit (n / 16)) (String (hexdigit (n mod 16))
          (encodeURIComponent rest)))
  end.

(** A string that [encodeURIComponent] leaves as it is, character by
    character. *)
Fixpoint unreservedOnly (s : string) : bool :=
  match s with
  | EmptyString => true
  | String c rest => unreserved c && unreservedOnly rest
  end.

End JS.
Import JS.

(* ================================================================== *)
(** ** The model routes of the server *)
(* ================================================================== *)

Module Models.

(** What [getPathInfo] returns. *)
Record PathInfo := mkPathInfo {
  urn : string;
  rootFileName : string;
  localPath : string;
  basePath : string
}.

Definition getPathInfo (encodedURN : Value) : JsResult PathInfo :=
  let! urn := decodeURIComponent (toString encodedURN) in
  let rootFileName := slice urn (lastIndexOf urn "/" + 1) None in
  let basePath := slice urn 0 (Some (lastIndexOf urn "/" + 1)) in
  let localPath :=
    replacePrefix (slice basePath (indexOf basePath "/" + 1) None) "output/" in
  Ok {| urn := urn; rootFileName := rootFileName;
        localPath := localPath; basePath := basePath |}.

(** The allow-list of roles in [parse]. *)
Definition roles : list string :=
  [ "Autodesk.CloudPlatform.DesignDescription";
    "Autodesk.CloudPlatform.PropertyDatabase";
    "Autodesk.CloudPlatform.IndexableContent";
    "leaflet-zip";
    "thumbnail";
    "graphics";
    "preview";
    "raas";
    "pdf";
    "lod" ].

(** [roles.includes(node.role)]: a role that is not a string is not in
    the list. *)
Definition roles_includes (role : Value) : bool :=
  match role with
  | Str r => existsb (String.eqb r) roles
  | _ => false
  end.

(** A node of the manifest tree.  Every property may be absent;
    [children], when present, is an array of nodes. *)
Inductive Node : Type := mkNode {
  n_role : Value;
  n_guid : Value;
  n_mime : Value;
  n_urn : Value;
  n_children : option (list Node)
}.

(** The manifest the Model Derivative service returns; only [derivatives]
    is read. *)
Record Manifest := mkManifest {
  derivatives : option (list Node)
}.

(** An entry of [items]: [guid] and [mime] of the node merged with its
    path information. *)
Record Item := mkItem {
  guid : Value;
  mime : Value;
  path : PathInfo
}.

(** The inner function [parse] of [parseManifest].  The array [items] it
    pushes to is threaded through; an exception of [getPathInfo] ends the
    walk. *)
Fixpoint parse (node : Node) (items : list Item) : JsResult (list Item) :=
  match node with
  | mkNode role nguid nmime nurn children =>
      let! items :=
        if roles_includes role then
          let! info := getPathInfo nurn in
          Ok (items ++ [ {| guid := nguid; mime := nmime; path := info |} ])
        else Ok items in
      match children with
      | Some cs =>
          (fix forEach (cs : list Node) (items : list Item) :=
             match cs with
             | [] => Ok items
             | c :: cs' => let! items := parse c items in forEach cs' items
             end) cs items
      | None => Ok items
      end
  end.

Definition parseManifest (manifest : Manifest) : JsResult (list Item) :=
  parse (mkNode Undefined Undefined Undefined Undefined (derivatives manifest)) [].

(** The vocabulary the properties of [parse] are stated in: the nodes of a
    tree in the order [parse] visits them (a node, then the trees of its
    children from left to right), the role filter, and the item one node
    gives. *)
Fixpoint nodes (node : Node) : list Node :=
  match node with
  | mkNode _ _ _ _ (Some cs) => node :: flat_map nodes cs
  | mkNode _ _ _ _ None => [node]
  end.

Definition forest (children : option (list Node)) : list Node :=
  match children with
  | Some cs => flat_map nodes cs
  | None => []
  end.

Definition allowed (node : Node) : bool := roles_includes (n_role node).

Definition describe (node : Node) : JsResult Item :=
  let! info := getPathInfo (n_urn node) in
  Ok {| guid := n_guid node; mime := n_mime node; path := info |}.

(** Two manifests to run [parseManifest] on: a viewable, which is not in
    the allow-list, with a graphics node below it, next to a thumbnail;
    and a graphics node whose URN ends in a lone [%]. *)
Definition nestedManifest : Manifest :=
  {| derivatives := Some
       [ mkNode (Str "viewable") (Str "g1") Undefined Undefined
           (Some [ mkNode (Str "graphics") (Str "g2")
                     (Str "application/autodesk-svf")
                     (Str "urn%3Aadsk.viewing%3Afs.file%3Adm/output/1/m.svf")
                     None ]);
         mkNode (Str "thumbnail") (Str "g3") (Str "image/png")
           (Str "urn:adsk.viewing:fs.file:dm/output/preview.png") (Some []) ] |}.

Definition malformedManifest : Manifest :=
  {| derivatives := Some
       [ mkNode (Str "graphics") (Str "g1") (Str "application/autodesk-svf")
           (Str "dm/output/100%") None ] |}.

(** The walk of [parse] over a sequence of nodes already laid out. *)
Fixpoint collect (ns : list Node) (items : list Item) : JsResult (list Item) :=
  match ns with
  | [] => Ok items
  | n :: ns' =>
      let! items :=
        if allowed n then let! item := describe n in Ok (items ++ [item])
        else Ok items in
      collect ns' items
  end.

(** *** Downloads

    [getDerivative] fetches a derivative from the derivative service.  The
    service is a function from the requested URL and the [Authorization]
    header to the body it answers with, or to the error the fetch rejects
    with.  A body is described by what the code does with it: it is
    unzipped, gunzipped, or taken as it is; a file inside is text that
    [JSON.parse] accepts as an asset manifest, or text it refuses. *)

Record Asset := mkAsset { URI : string }.

Record AssetManifest := mkAssetManifest {
  assets : option (list Asset)
}.

Inductive Text :=
| Json (m : AssetManifest)
| NotJson (raw : string).

Inductive Buffer :=
| Zip (files : list (string * Text))
| Gzip (content : Text)
| Bytes (raw : string).

Definition Service := string -> string -> JsResult Buffer.

Definition BaseUrl : string := "https://developer.api.autodesk.com".

(** A computation on the server: it may throw, and it extends the list of
    URLs requested from the derivative service so far. *)
Definition Async (A : Type) : Type := list string -> JsResult A * list string.

Definition ret {A} (a : A) : Async A := fun log => (Ok a, log).
Definition raise {A} (e : string) : Async A := fun log => (Throw e, log).
Definition lift {A} (r : JsResult A) : Async A := fun log => (r, log).
Definition await {A B} (m : Async A) (k : A -> Async B) : Async B :=
  fun log =>
    match m log with
    | (Ok a, log') => k a log'
    | (Throw e, log') => (Throw e, log')
    end.

Notation "'await!' x ':=' m 'in' k" := (await m (fun x => k))
  (at level 10, x name, m at level 100, k at level 200).

Section Enumerator.

Variable service : Service.

Definition getDerivative (urn token : string) : Async Buffer :=
  let url :=
    BaseUrl +++ "/derivativeservice/v2/derivatives/" +++ encodeURIComponent urn in
  fun log => (service url ("Bearer " +++ token), log ++ [url]).

(** [new zip(data, ...)] *)
Definition unzip (data : Buffer) : JsResult (list (string * Text)) :=
  match data with
  | Zip files => Ok files
  | _ => Throw "Error: Corrupted zip"
  end.

(** [pack.files[name].asText()] *)
Fixpoint asText (files : list (string * Text)) (name : string) : JsResult Text :=
  match files with
  | [] => Throw "TypeError: Cannot read properties of undefined"
  | (n, t) :: files' => if String.eqb n name then Ok t else asText files' name
  end.

Definition gunzipSync (data : Buffer) : JsResult Text :=
  match data with
  | Gzip t => Ok t
  | _ => Throw "Error: incorrect header check"
  end.

Definition JSON_parse (t : Text) : JsResult AssetManifest :=
  match t with
  | Json m => Ok m
  | NotJson _ => Throw "SyntaxError: Unexpected token"
  end.

(** [uri.indexOf('embed:/') === -1] *)
Definition notEmbedded (uri : string) : bool := indexOf uri "embed:/" =? -1.

Definition getDerivativesSVF (urn token : string) : Async (list string) :=
  await! data := getDerivative urn token in
  lift (let! pack := unzip data in
        let! text := asText pack "manifest.json" in
        let! manifest := JSON_parse text in
        match assets manifest with
        | None => Ok []
        | Some assets => Ok (filter notEmbedded (map URI assets))
        end).

Definition getDerivativesF2D (item : Item) (token : string) : Async (list string) :=
  let manifestPath := basePath (path item) +++ "manifest.json.gz" in
  await! data := getDerivative manifestPath token in
  lift (let! text := gunzipSync data in
        let! manifest := JSON_parse text in
        match assets manifest with
        | None => Ok []
        | Some assets =>
            Ok (filter notEmbedded (map URI assets) ++ ["manifest.json.gz"])
        end).

(** The [switch (item.mime)] of the route [/api/models/:urn/files]: the
    files one derivative depends on. *)
Definition enumerateFiles (item : Item) (accessToken : string)
  : Async (list string) :=
  match mime item with
  | Str "application/autodesk-svf" =>
      getDerivativesSVF (urn (path item)) accessToken
  | Str "application/autodesk-f2d" =>
      getDerivativesF2D item accessToken
  | Str "application/autodesk-db" =>
      ret [ "objects_attrs.json.gz"; "objects_vals.json.gz";
            "objects_offs.json.gz"; "objects_ids.json.gz";
            "objects_avs.json.gz"; rootFileName (path item) ]
  | _ => ret [ rootFileName (path item) ]
  end.

End Enumerator.

(** Data to run the enumerator on: a service that is unreachable, a service
    that answers every request with an SVF archive whose [manifest.json]
    lists an image and an embedded resource, and two items. *)
Definition offline : Service := fun _ _ => Throw "FetchError: request failed".

Definition svfArchive : Buffer :=
  Zip [ ("0.pf", NotJson "");
        ("manifest.json",
         Json {| assets := Some [ mkAsset "a.png"; mkAsset "embed:/b" ] |}) ].

Definition svfService : Service := fun _ _ => Ok svfArchive.

Definition dbItem : Item :=
  {| guid := Str "g4"; mime := Str "application/autodesk-db";
     path := {| urn := "dm/output/properties.db";
                rootFileName := "properties.db";
                localPath := ""; basePath := "dm/output/" |} |}.

Definition svfItem : Item :=
  {| guid := Str "g2"; mime := Str "application/autodesk-svf";
     path := {| urn := "dm/output/1/m.svf"; rootFileName := "m.svf";
                localPath := "1/"; basePath := "dm/output/1/" |} |}.

End Models.

(* ================================================================== *)
(** ** public/service-worker.js *)
(* ================================================================== *)

Module Worker.

(** A response as the cache stores it; [vary] holds the values of its
    [Vary] header, none when the header is absent. *)
Record Response := mkResponse {
  status : Z;
  vary : list string;
  body : string
}.

(** What [cache.put] accepts: it rejects, with a TypeError, a response of
    status 206 and a response whose [Vary] header has the value [*]. *)
Definition storable (resp : Response) : bool :=
  negb (status resp =? 206) && negb (existsb (String.eqb "*") (vary resp)).

(** The error of a [cache.put] that rejects; what follows these words in
    its text is the platform's. *)
Definition putRefused : string :=
  "TypeError: Failed to execute 'put' on 'Cache'".

(** The cache [CACHE_NAME]: the stored requests, by URL, each with its
    response, in the order [cache.keys()] lists them. *)
Definition Cache := list (string * Response).

Definition cache_delete (url : string) (cache : Cache) : Cache :=
  filter (fun entry => negb (String.eqb (fst entry) url)) cache.

(** [cache.put] replaces the entry of the URL, the new one goes last. *)
Definition cache_put (url : string) (resp : Response) (cache : Cache) : Cache :=
  cache_delete url cache ++ [(url, resp)].

Definition cache_keys (cache : Cache) : list string := map fst cache.

Fixpoint cache_match (url : string) (cache : Cache) : option Response :=
  match cache with
  | [] => None
  | (k, resp) :: cache' =>
      if String.eqb k url then Some resp else cache_match url cache'
  end.

(** An element of the array the route [/api/models/:urn/files] answers
    with, reduced to the properties [cacheUrn] reads. *)
Record Derivative := mkDerivative {
  urn : string;
  basePath : string;
  files : list string
}.

(** An element of the array as the loops of [cacheUrn] meet it: an object
    whose [files] can be iterated, its [urn] and [basePath] taken as the
    strings they are turned into; a value whose [files] cannot be iterated,
    with the string its [urn] is turned into; or [null], of which no
    property can be read. *)
Inductive Element :=
| Shaped (derivative : Derivative)
| NoFiles (urn : string)
| NoObject.

(** What [res.json()] gives: a value that can be iterated, with its
    elements, or one that cannot. *)
Inductive FileList :=
| Iterable (elements : list Element)
| NotIterable.

(** What is outside the worker.  [fetchJson path] is [fetch(path)]
    followed by [res.json()] on the application's own server.
    [requestUrl url] is the URL of the request the platform makes from the
    string [url]: the string parsed as a URL and written out again, which
    is the key [cache.put] stores and [cache.keys()] lists.  [fetch url
    authorization] is the answer of the derivative service to the request
    of URL [url].  A rejected promise is a [Throw]. *)
Record Network := mkNetwork {
  fetchJson : string -> JsResult FileList;
  fetch : string -> string -> JsResult Response;
  requestUrl : string -> string
}.

(** The fetches of [cacheUrn] are all started before any is awaited, and
    they complete in an order the code does not control.  A schedule fixes
    that order: the job started as number [i] is inserted at place
    [nth i schedule 0] among the jobs started after it. *)
Definition Schedule := list nat.

Fixpoint insertAt {A} (n : nat) (x : A) (l : list A) : list A :=
  match n, l with
  | S n', y :: l' => y :: insertAt n' x l'
  | _, _ => x :: l
  end.

Fixpoint completionOrder {A} (schedule : Schedule) (jobs : list A) : list A :=
  match jobs with
  | [] => []
  | job :: jobs' =>
      insertAt (hd O schedule) job (completionOrder (tl schedule) jobs')
  end.

Definition baseUrl : string :=
  "https://developer.api.autodesk.com/derivativeservice/v2".

Section Tasks.

Variable net : Network.

(** One element of [fetches]:
    [fetch(url, options).then(resp => cache.put(url, resp)).then(() => url)].
    The promise of [fetch] may be rejected, and so may that of [cache.put];
    a response with an error status is stored like any other.  The entry
    has the URL of the request for key, the job is fulfilled with the
    string it was given. *)
Definition fetchAndPut (options url : string) (cache : Cache)
  : JsResult string * Cache :=
  let request := requestUrl net url in
  match fetch net request options with
  | Ok resp =>
      if storable resp then (Ok url, cache_put request resp cache)
      else (Throw putRefused, cache)
  | Throw err => (Throw err, cache)
  end.

(** The jobs run in the given order; the first rejection is kept. *)
Fixpoint settle (options : string) (order : list string) (cache : Cache)
    (rejection : option string) : option string * Cache :=
  match order with
  | [] => (rejection, cache)
  | url :: order' =>
      match fetchAndPut options url cache with
      | (Ok _, cache') => settle options order' cache' rejection
      | (Throw err, cache') =>
          settle options order' cache'
            (match rejection with None => Some err | Some _ => rejection end)
      end
  end.

(** [await Promise.all(fetches)]: the URLs in the order of the array when
    every job is fulfilled, the first rejection otherwise. *)
Definition promiseAll (schedule : Schedule) (options : string)
    (fetches : list string) (cache : Cache) : JsResult (list string) * Cache :=
  match settle options (completionOrder schedule fetches) cache None with
  | (None, cache') => (Ok fetches, cache')
  | (Some err, cache') => (Throw err, cache')
  end.

Definition derivUrl (derivative : Derivative) : string :=
  baseUrl +++ "/derivatives/" +++ encodeURIComponent (urn derivative).

Definition fileUrl (derivative : Derivative) (file : string) : string :=
  baseUrl +++ "/derivatives/"
    +++ encodeURIComponent (basePath derivative +++ file).

(** The array [fetches] after the two nested loops, by the URL of each
    job. *)
Definition pushAll (fetches : list string) (derivatives : list Derivative)
  : list string :=
  fold_left
    (fun fetches derivative =>
       fold_left (fun fetches file => fetches ++ [fileUrl derivative file])
         (files derivative) (fetches ++ [derivUrl derivative]))
    derivatives fetches.

(** The two loops over what [res.json()] gave: the jobs started, by
    their URL, and the exception that ends the loops, if any.  A job is
    started when it is pushed, so the jobs pushed before an exception run
    all the same. *)
Fixpoint pushElements (fetches : list string) (elements : list Element)
  : list string * option string :=
  match elements with
  | [] => (fetches, None)
  | Shaped derivative :: elements' =>
      pushElements (pushAll fetches [derivative]) elements'
  | NoFiles urn :: _ =>
      (fetches ++ [baseUrl +++ "/derivatives/" +++ encodeURIComponent urn],
       Some "TypeError: derivative.files is not iterable")
  | NoObject :: _ =>
      (fetches, Some "TypeError: Cannot read properties of null")
  end.

Definition loops (fetches : list string) (derivatives : FileList)
  : list string * option string :=
  match derivatives with
  | Iterable elements => pushElements fetches elements
  | NotIterable => (fetches, Some "TypeError: derivatives is not iterable")
  end.

(** The cache returned is the one left when every job started has
    settled, also when the task is rejected before that. *)
Definition cacheUrn (schedule : Schedule) (urn access_token : string)
    (cache : Cache) : JsResult (list string) * Cache :=
  match fetchJson net ("/api/models/" +++ urn +++ "/files") with
  | Throw err => (Throw err, cache)
  | Ok derivatives =>
      let options := "Bearer " +++ access_token in
      let manifestUrl := baseUrl +++ "/manifest/" +++ urn in
      match loops [manifestUrl] derivatives with
      | (fetches, None) => promiseAll schedule options fetches cache
      | (fetches, Some err) =>
          (Throw err,
           snd (settle options (completionOrder schedule fetches) cache None))
      end
  end.

(** [cache.keys()] and [cache.delete(req)] do not reject: the promise of
    [clearUrn] and that of [listCached] are always fulfilled. *)
Definition clearUrn (urn : string) (cache : Cache)
  : JsResult (list string) * Cache :=
  let requests := filter (fun url => includes url urn) (cache_keys cache) in
  (Ok requests,
   fold_left (fun cache url => cache_delete url cache) requests cache).

Definition listCached (cache : Cache) : JsResult (list string) * Cache :=
  (Ok (cache_keys cache), cache).

(** The data of a message event. *)
Record MessageData := mkMessageData {
  operation : Value;
  data_urn : Value;
  access_token : Value
}.

(** What is posted on [event.ports[0]]: [{ status: 'ok', urls }] or
    [{ error }]. *)
Inductive Reply :=
| ReplyOk (urls : list string)
| ReplyError (error : string).

(** The state [messageAsync] acts on: the cache and the messages posted on
    the port of the event so far. *)
Record State := mkState {
  cache : Cache;
  port : list Reply
}.

Definition postMessage (reply : Reply) (st : State) (cache' : Cache) : State :=
  {| cache := cache'; port := port st ++ [reply] |}.

(** Each [case] of the [switch] awaits its task in a [try] and posts the
    URLs, or posts the error in the [catch]; there is no [default]. *)
Definition messageAsync (schedule : Schedule) (data : MessageData) (st : State)
  : State :=
  match operation data with
  | Str "CACHE_URN" =>
      match cacheUrn schedule (toString (data_urn data))
              (toString (access_token data)) (cache st) with
      | (Ok urls, cache') => postMessage (ReplyOk urls) st cache'
      | (Throw err, cache') => postMessage (ReplyError err) st cache'
      end
  | Str "CLEAR_URN" =>
      match clearUrn (toString (data_urn data)) (cache st) with
      | (Ok urls, cache') => postMessage (ReplyOk urls) st cache'
      | (Throw err, cache') => postMessage (ReplyError err) st cache'
      end
  | Str "LIST_CACHES" =>
      match listCached (cache st) with
      | (Ok urls, cache') => postMessage (ReplyOk urls) st cache'
      | (Throw err, cache') => postMessage (ReplyError err) st cache'
      end
  | _ => st
  end.

(** What a job leaves in the cache for the URL of its request: the
    response fetched, when the fetch is fulfilled and [cache.put] accepts
    the response.  Otherwise the job is rejected, with the error of the
    fetch or that of [cache.put]. *)
Definition stored (options request : string) : option Response :=
  match fetch net request options with
  | Ok resp => if storable resp then Some resp else None
  | Throw _ => None
  end.

Definition jobError (options request : string) : option string :=
  match fetch net request options with
  | Ok resp => if storable resp then None else Some putRefused
  | Throw err => Some err
  end.

(** The entries the jobs of [order] put, in that order. *)
Definition fulfilled (options : string) (order : list string)
  : list (string * Response) :=
  flat_map (fun url => match stored options (requestUrl net url) with
                       | Some resp => [(requestUrl net url, resp)]
                       | None => []
                       end) order.

(** The jobs [cacheUrn] starts for a model. *)
Definition started (urn : string) : list string :=
  match fetchJson net ("/api/models/" +++ urn +++ "/files") with
  | Ok derivatives => fst (loops [baseUrl +++ "/manifest/" +++ urn] derivatives)
  | Throw _ => []
  end.

Definition cache_putAll (entries : list (string * Response)) (cache : Cache)
  : Cache :=
  fold_left (fun cache entry => cache_put (fst entry) (snd entry) cache)
    entries cache.

End Tasks.

(** The entries of a cache that a series of puts does not touch: those
    whose URL none of the puts has. *)
Definition absent (entries : list (string * Response))
    (entry : string * Response) : bool :=
  negb (existsb (String.eqb (fst entry)) (map fst entries)).

(** A model with one derivative and one file, a derivative service that
    answers every request, one that cannot reach the file, and a cache
    that holds a page of the application and two URLs of the model. *)
Definition sampleDerivatives : list Derivative :=
  [ {| urn := "urn:model/output/1/m.svf";
       basePath := "urn:model/output/1/";
       files := [ "a.png" ] |} ].

Definition sampleFiles (path : string) : JsResult FileList :=
  if String.eqb path "/api/models/dXJuOm1vZGVs/files"
  then Ok (Iterable (map Shaped sampleDerivatives))
  else Throw "SyntaxError: Unexpected token < in JSON".

(** One thing the URL parser does: a space is written [%20]. *)
Fixpoint percentSpaces (url : string) : string :=
  match url with
  | EmptyString => EmptyString
  | String c rest =>
      if Ascii.eqb c " " then "%20" +++ percentSpaces rest
      else String c (percentSpaces rest)
  end.

Definition online : Network :=
  {| fetchJson := sampleFiles;
     fetch := fun url _ => Ok {| status := 200; vary := []; body := url |};
     requestUrl := percentSpaces |}.

Definition flaky : Network :=
  {| fetchJson := sampleFiles;
     fetch := fun url _ =>
       if includes url "a.png" then Throw "TypeError: Failed to fetch"
       else Ok {| status := 200; vary := []; body := url |};
     requestUrl := percentSpaces |}.

(** A derivative service that answers every request with an error page,
    one that answers with a part of the content, and an application server
    that answers with an object instead of the array. *)
Definition notFound : Network :=
  {| fetchJson := sampleFiles;
     fetch := fun _ _ => Ok {| status := 404; vary := []; body := "Not Found" |};
     requestUrl := percentSpaces |}.

Definition partialContent : Network :=
  {| fetchJson := sampleFiles;
     fetch := fun url _ => Ok {| status := 206; vary := []; body := url |};
     requestUrl := percentSpaces |}.

Definition noArray : Network :=
  {| fetchJson := fun _ => Ok NotIterable;
     fetch := fun url _ => Ok {| status := 200; vary := []; body := url |};
     requestUrl := percentSpaces |}.

Definition sampleCache : Cache :=
  [ ("https://example.com/index.html", {| status := 200; vary := []; body := "<html>" |});
    (baseUrl +++ "/manifest/dXJuOm1vZGVs", {| status := 200; vary := []; body := "{}" |});
    (baseUrl +++ "/manifest/dXJuOm90aGVy", {| status := 200; vary := []; body := "{}" |}) ].

End Worker.

(* ================================================================== *)
(** ** The route [/api/models/:urn/files] and its access token *)
(* ================================================================== *)

Module Routes.

Import Models.

(** A JavaScript number: a double, with its [NaN] and its rounding. *)
Definition Number := PrimFloat.float.

(** What [getTwoLeggedToken] resolves with, as far as it is read.
    [granted_expires_in] is [expires_in] as [*] reads it, [NaN] when the
    property is missing. *)
Record Grant := mkGrant {
  granted_token : string;
  granted_expires_in : Number
}.

(** [_credentials], once [expires_at] has been added to the grant. *)
Record Credentials := mkCredentials {
  access_token : string;
  expires_in : Number;
  expires_at : Number
}.

(** [getAccessToken].  [grant] is the outcome of the call to
    [getTwoLeggedToken], should it be made; [now] is [Date.now()] in the
    test and [later] is [Date.now()] after the [await].  The state is
    [_credentials], [None] for [null].  The sum, the product and the
    comparison are those of doubles: the sum is rounded, and [<] is false
    of a [NaN]. *)
Definition getAccessToken (grant : JsResult Grant) (now later : Number)
    (credentials : option Credentials)
  : JsResult string * option Credentials :=
  let renew :=
    match grant with
    | Ok g =>
        let c := {| access_token := granted_token g;
                    expires_in := granted_expires_in g;
                    expires_at :=
                      PrimFloat.add later
                        (PrimFloat.mul (granted_expires_in g) 1000%float) |} in
        (Ok (access_token c), Some c)
    | Throw err => (Throw err, credentials)
    end in
  match credentials with
  | None => renew
  | Some c =>
      if PrimFloat.ltb (expires_at c) now then renew
      else (Ok (access_token c), credentials)
  end.

(** The design data service: from the URL and the [Authorization] header
    to the manifest [res.json()] gives, or to the error. *)
Definition DesignData := string -> string -> JsResult Manifest.

Definition getManifest (designData : DesignData) (urn token : string)
  : JsResult Manifest :=
  designData (BaseUrl +++ "/modelderivative/v2/designdata/" +++ urn +++ "/manifest")
    ("Bearer " +++ token).

(** [Object.assign({}, item, { files })] *)
Record Entry := mkEntry {
  item : Item;
  files : list string
}.

(** The function mapped over [items]. *)
Definition withFiles (service : Service) (accessToken : string) (it : Item)
  : Async Entry :=
  await! fs := enumerateFiles service it accessToken in
  ret {| item := it; files := fs |}.

(** [items.map(async (item) => ...)]: each call issues its request before
    the next call starts, and a call that will be rejected does not stop
    the others.  The promises are given by their outcome. *)
Fixpoint mapAsync (service : Service) (accessToken : string) (items : list Item)
    (log : list string) : list (JsResult Entry) * list string :=
  match items with
  | [] => ([], log)
  | it :: items' =>
      let (promise, log1) := withFiles service accessToken it log in
      let (promises, log2) := mapAsync service accessToken items' log1 in
      (promise :: promises, log2)
  end.

Fixpoint firstRejection {A} (order : list (JsResult A)) : option string :=
  match order with
  | [] => None
  | Throw err :: _ => Some err
  | Ok _ :: order' => firstRejection order'
  end.

Fixpoint fulfilledValues {A} (promises : list (JsResult A)) : list A :=
  match promises with
  | [] => []
  | Ok a :: promises' => a :: fulfilledValues promises'
  | Throw _ :: promises' => fulfilledValues promises'
  end.

(** [await Promise.all(promises)], the promises settling in the order the
    schedule gives. *)
Definition promiseAll {A} (schedule : Worker.Schedule)
    (promises : list (JsResult A)) : JsResult (list A) :=
  match firstRejection (Worker.completionOrder schedule promises) with
  | Some err => Throw err
  | None => Ok (fulfilledValues promises)
  end.

(** What the route depends on, and the state of the server: the stored
    credentials and the URLs requested from the derivative service. *)
Record Upstream := mkUpstream {
  grant : JsResult Grant;
  designData : DesignData;
  service : Service
}.

Record Server := mkServer {
  credentials : option Credentials;
  requested : list string
}.

(** The handler of [GET /api/models/:urn/files]: [Ok] is what [res.json]
    sends, [Throw] is what [next] is called with. *)
Definition modelFiles (up : Upstream) (schedule : Worker.Schedule)
    (now later : Number) (urn : string) (server : Server)
  : JsResult (list Entry) * Server :=
  match getAccessToken (grant up) now later (credentials server) with
  | (Throw err, creds) =>
      (Throw err, {| credentials := creds; requested := requested server |})
  | (Ok accessToken, creds) =>
      match (let! manifest := getManifest (designData up) urn accessToken in
             parseManifest manifest) with
      | Throw err =>
          (Throw err, {| credentials := creds; requested := requested server |})
      | Ok items =>
          let (derivatives, log) :=
            mapAsync (service up) accessToken items (requested server) in
          (promiseAll schedule derivatives,
           {| credentials := creds; requested := log |})
      end
  end.

(** The promise of one item: its entry, or the error of its enumeration. *)
Definition entryOf (service : Service) (token : string) (it : Item)
  : JsResult Entry :=
  let! fs := fst (enumerateFiles service it token []) in
  Ok {| item := it; files := fs |}.

(** The element of the JSON array as [cacheUrn] reads it. *)
Definition asDerivative (entry : Entry) : Worker.Derivative :=
  {| Worker.urn := urn (path (item entry));
     Worker.basePath := basePath (path (item entry));
     Worker.files := files entry |}.

(** The URL [getDerivative] requests for an item of the SVF or F2D kind. *)
Definition requestOf (it : Item) : list string :=
  match mime it with
  | Str "application/autodesk-svf" =>
      [ BaseUrl +++ "/derivativeservice/v2/derivatives/"
          +++ encodeURIComponent (urn (path it)) ]
  | Str "application/autodesk-f2d" =>
      [ BaseUrl +++ "/derivativeservice/v2/derivatives/"
          +++ encodeURIComponent (basePath (path it) +++ "manifest.json.gz") ]
  | Str "application/autodesk-db" => []
  | _ => []
  end.

(** Data to run the route on. *)
Definition f2dItem : Item :=
  {| guid := Str "g5"; mime := Str "application/autodesk-f2d";
     path := {| urn := "dm/output/2/primaryGraphics.f2d";
                rootFileName := "primaryGraphics.f2d";
                localPath := "2/"; basePath := "dm/output/2/" |} |}.

Definition f2dService : Service :=
  fun _ _ =>
    Ok (Gzip (Json {| assets := Some [ mkAsset "primaryGraphics.f2d";
                                       mkAsset "embed:/fonts" ] |})).

Definition sampleUpstream : Upstream :=
  {| grant := Ok {| granted_token := "t0";
                    granted_expires_in := 3600%float |};
     designData := fun _ _ => Ok nestedManifest;
     service := svfService |}.

End Routes.

(* ================================================================== *)
(** ** public/service-worker.js: installation and interception *)
(* ================================================================== *)

Module Intercept.

Import Worker.

Definition viewer : string :=
  "https://developer.api.autodesk.com/modelderivative/v2/viewers/7.*".

Definition STATIC_URLS : list string :=
  [ "/";
    "/index.html";
    "/fonts/Artifakt_Element_Regular.woff2";
    "/javascript/main.js";
    "/stylesheets/main.css";
    viewer +++ "/style.css";
    viewer +++ "/viewer3D.js";
    viewer +++ "/lmvworker.js";
    viewer +++ "/res/locales/en/allstrings.json";
    viewer +++ "/res/environments/SharpHighlights_irr.logluv.dds";
    viewer +++ "/res/environments/SharpHighlights_mipdrop.logluv.dds";
    viewer +++ "/res/environments/boardwalk_irr.logluv.dds";
    viewer +++ "/res/environments/boardwalk_mipdrop.logluv.dds";
    viewer +++ "/res/textures/VCarrows.png";
    viewer +++ "/res/textures/VCarrowsS0.png";
    viewer +++ "/res/textures/VCarrowsS1.png";
    viewer +++ "/res/textures/VCcontext.png";
    viewer +++ "/res/textures/VCcontextS.png";
    viewer +++ "/res/textures/VCedge1.png";
    viewer +++ "/res/textures/VChome.png";
    viewer +++ "/res/textures/VChomeS.png";
    viewer +++ "/res/textures/cardinalPoint.png";
    viewer +++ "/res/textures/centerMarker_X.png";
    viewer +++ "/res/textures/radial-fade-grid.png" ].

Definition API_URLS : list string := [ "/api/token"; "/api/models" ].

(** A fetch without options: from the URL of the request to the response,
    or to the error the fetch rejects with. *)
Definition Web := string -> JsResult Response.

(** [response.ok] *)
Definition ok (resp : Response) : bool :=
  (200 <=? status resp) && (status resp <=? 299).

(** The URL of a request made in the worker: a path is resolved against
    the origin of the worker. *)
Definition absolute (origin url : string) : string :=
  if startsWith url "/" then origin +++ url else url.

(** Why [cache.addAll] and [cache.add] refuse the outcome of a fetch: the
    fetch is rejected, the response is not [ok], or it is one [cache.put]
    does not accept (status 206, or varying on [*]). *)
Definition refusal (outcome : JsResult Response) : JsResult Response :=
  match outcome with
  | Ok resp =>
      if ok resp && storable resp then Ok resp
      else Throw "TypeError: Request failed"
  | Throw err => Throw err
  end.

Definition received (fetched : list (string * JsResult Response))
  : list (string * Response) :=
  flat_map (fun request => match snd request with
                           | Ok resp => [(fst request, resp)]
                           | Throw _ => []
                           end) fetched.

(** [cache.addAll(urls)]: every URL is fetched; if one fetch is refused the
    promise is rejected and nothing is stored, otherwise every response is
    put. *)
Definition cache_addAll (web : Web) (origin : string) (schedule : Schedule)
    (urls : list string) (cache : Cache) : JsResult unit * Cache :=
  let fetched :=
    map (fun url => (absolute origin url, refusal (web (absolute origin url))))
      urls in
  match Routes.firstRejection (completionOrder schedule (map snd fetched)) with
  | Some err => (Throw err, cache)
  | None => (Ok tt, cache_putAll (received fetched) cache)
  end.

Definition installAsync (web : Web) (origin : string)
    (schedule1 schedule2 : Schedule) (cache : Cache) : JsResult unit * Cache :=
  match cache_addAll web origin schedule1 STATIC_URLS cache with
  | (Throw err, cache') => (Throw err, cache')
  | (Ok _, cache') => cache_addAll web origin schedule2 API_URLS cache'
  end.

(** [s.endsWith(p)] *)
Definition endsWith (s p : string) : bool :=
  (String.length p <=? String.length s)%nat
  && String.eqb (skip (String.length s - String.length p) s) p.

(** A URL without its query and its fragment, as [ignoreSearch] compares
    URLs. *)
Fixpoint withoutSearch (url : string) : string :=
  match url with
  | EmptyString => EmptyString
  | String c rest =>
      if Ascii.eqb c "?" || Ascii.eqb c "#" then EmptyString
      else String c (withoutSearch rest)
  end.

(** [caches.match(url, { ignoreSearch: true })], the cache [CACHE_NAME]
    being the only one. *)
Fixpoint caches_match (url : string) (cache : Cache) : option Response :=
  match cache with
  | [] => None
  | (key, resp) :: cache' =>
      if String.eqb (withoutSearch key) (withoutSearch url) then Some resp
      else caches_match url cache'
  end.

(** [caches.open(CACHE_NAME).then((cache) => cache.add(request)).catch(...)]:
    the rejection is logged and nothing else. *)
Definition cache_add (web : Web) (url : string) (cache : Cache) : Cache :=
  match refusal (web url) with
  | Ok resp => cache_put url resp cache
  | Throw _ => cache
  end.

(** [fetchAsync] for a request of URL [url].  [first] answers the fetch
    tried for the token, [later] the fetches made after the cache has been
    looked up.  The cache returned is the one left when the update in the
    background has settled. *)
Definition fetchAsync (first later : Web) (url : string) (cache : Cache)
  : JsResult Response * Cache :=
  let fromCache :=
    match caches_match url cache with
    | Some found =>
        (Ok found,
         if existsb (String.eqb url) STATIC_URLS
            || existsb (String.eqb url) API_URLS
         then cache_add later url cache else cache)
    | None => (later url, cache)
    end in
  if endsWith url "/api/token" then
    match first url with
    | Ok response => (Ok response, cache)
    | Throw _ => fromCache
    end
  else fromCache.

(** Data to run the worker on. *)
Definition down : Web := fun _ => Throw "TypeError: Failed to fetch".

Definition up : Web := fun url => Ok {| status := 200; vary := []; body := url |}.

Definition tokenCache : Cache :=
  [ ("https://app.example/api/token", {| status := 200; vary := []; body := "old" |});
    ("https://app.example/index.html?v=1", {| status := 200; vary := []; body := "<html>" |}) ].

End Intercept.

(* ================================================================== *)
(** ** The page: tasks sent to the worker and the status of a model *)
(* ================================================================== *)

Module Foreground.

Import Worker.

(** The promise [submitWorkerTask] returns. *)
Inductive Promise :=
| Resolved (data : Reply)
| Rejected (data : Reply)
| Pending.

(** [channel.port1.onmessage]: a reply with a truthy [error] rejects. *)
Definition onmessage (data : Reply) : Promise :=
  match data with
  | ReplyError err => if String.eqb err "" then Resolved data else Rejected data
  | ReplyOk _ => Resolved data
  end.

(** [submitWorkerTask(task)] with an active worker: the task is posted
    with a fresh channel, and the first message on the channel settles the
    promise. *)
Definition submitWorkerTask (net : Network) (schedule : Schedule)
    (task : MessageData) (cache : Cache) : Promise * Cache :=
  let st := messageAsync net schedule task {| cache := cache; port := [] |} in
  (match port st with
   | reply :: _ => onmessage reply
   | [] => Pending
   end,
   Worker.cache st).

(** The tasks [cacheModel], [clearCache] and [updateOverlay] submit.
    [accessToken] is [null] until the viewer has asked for a token. *)
Definition cacheTask (urn : string) (accessToken : Value) : MessageData :=
  {| operation := Str "CACHE_URN"; data_urn := Str urn;
     access_token := accessToken |}.

Definition clearTask (urn : string) : MessageData :=
  {| operation := Str "CLEAR_URN"; data_urn := Str urn;
     access_token := Undefined |}.

Definition listTask : MessageData :=
  {| operation := Str "LIST_CACHES"; data_urn := Undefined;
     access_token := Undefined |}.

(** [cachedUrls.filter((url) => url.includes(urn)).length > 0] *)
Definition cached (cachedUrls : list string) (urn : string) : bool :=
  (0 <? List.length (filter (fun url => includes url urn) cachedUrls))%nat.

End Foreground.

(* ================================================================== *)
(** ** Properties *)
(* ================================================================== *)

(** *** Strings *)

Section StringFacts.

Lemma length_append (a b : string) :
  String.length (a +++ b) = (String.length a + String.length b)%nat.
Proof. induction a as [|c a IH]; simpl; [reflexivity | now rewrite IH]. Qed.

Lemma append_assoc (a b c : string) : (a +++ b) +++ c = a +++ b +++ c.
Proof. induction a as [|x a IH]; simpl; [reflexivity | now rewrite IH]. Qed.

Lemma append_empty_r (a : string) : a +++ "" = a.
Proof. induction a as [|x a IH]; simpl; [reflexivity | now rewrite IH]. Qed.

Lemma startsWith_iff (s p : string) :
  startsWith s p = true <-> exists r, s = p +++ r.
Proof.
  revert s; induction p as [|a p IH]; intros s; simpl.
  - split; [intros _; now exists s | reflexivity].
  - destruct s as [|b s].
    + split; [discriminate | intros [r H]; discriminate].
    + rewrite andb_true_iff, Ascii.eqb_eq, IH. split.
      * intros [-> [r ->]]. now exists r.
      * intros [r H]. injection H as -> ->. split; [reflexivity | now exists r].
Qed.

Lemma skip_append (a b : string) : skip (String.length a) (a +++ b) = b.
Proof. induction a as [|c a IH]; simpl; [now destruct b | exact IH]. Qed.

Lemma take_append (a b : string) : take (String.length a) (a +++ b) = a.
Proof.
  induction a as [|c a IH]; simpl; [now destruct b | now rewrite IH].
Qed.

Lemma take_all (n : nat) (s : string) :
  (String.length s <= n)%nat -> take n s = s.
Proof.
  revert n; induction s as [|c s IH]; intros [|n] H; simpl in *;
    try reflexivity; try lia.
  rewrite IH; [reflexivity | lia].
Qed.

(** [includes] holds exactly of the strings that have [p] as a substring. *)
Lemma search_some_iff (s p : string) :
  (exists n, search s p = Some n) <-> exists a b, s = a +++ p +++ b.
Proof.
  induction s as [|c s IH]; simpl.
  - destruct (startsWith "" p) eqn:E.
    + split; [intros _ | intros _; now exists O].
      apply startsWith_iff in E as [r E]. now exists "", r.
    + split; [intros [n H]; discriminate | intros (a & b & H)].
      assert (startsWith "" p = true) as E'; [|congruence].
      apply startsWith_iff. destruct a; [|discriminate]. now exists b.
  - destruct (startsWith (String c s) p) eqn:E.
    + split; [intros _ | intros _; now exists O].
      apply startsWith_iff in E as [r E]. now exists "", r.
    + split.
      * intros [n H]. destruct (search s p) as [m|] eqn:Es; [|discriminate].
        destruct (proj1 IH (ex_intro _ m eq_refl)) as (a & b & ->).
        now exists (String c a), b.
      * intros (a & b & H). destruct a as [|x a]; simpl in H.
        -- assert (startsWith (String c s) p = true) as E'; [|congruence].
           apply startsWith_iff. now exists b.
        -- injection H as -> ->.
           destruct (proj2 IH (ex_intro _ a (ex_intro _ b eq_refl))) as [m ->].
           now exists (S m).
Qed.

Lemma includes_iff (s p : string) :
  includes s p = true <-> exists a b, s = a +++ p +++ b.
Proof.
  rewrite <- search_some_iff. unfold includes.
  destruct (search s p) as [n|]; split; try reflexivity; try discriminate.
  - intros _. now exists n.
  - intros [n H]. discriminate.
Qed.

Lemma search_none_last (s p : string) :
  search s p = None -> searchLast s p = None.
Proof.
  induction s as [|c s IH]; simpl.
  - destruct (startsWith "" p); [discriminate | reflexivity].
  - destruct (startsWith (String c s) p); [discriminate|].
    destruct (search s p); [discriminate|]. intros _. now rewrite IH.
Qed.

Lemma includes_false_search (s p : string) :
  includes s p = false -> search s p = None.
Proof. unfold includes. now destruct (search s p). Qed.

Lemma search_first (a b : string) (c : ascii) :
  includes a (String c "") = false ->
  search (a +++ String c b) (String c "") = Some (String.length a).
Proof.
  induction a as [|x a IH]; simpl; intros H.
  - now rewrite Ascii.eqb_refl.
  - unfold includes in H. simpl in H.
    destruct (Ascii.eqb c x) eqn:E; [discriminate|]. simpl in H.
    destruct (search a (String c "")) eqn:Es; [discriminate|].
    simpl. rewrite IH; [reflexivity|]. unfold includes. now rewrite Es.
Qed.

Lemma searchLast_last (a b : string) (c : ascii) :
  includes b (String c "") = false ->
  searchLast (a +++ String c b) (String c "") = Some (String.length a).
Proof.
  intros H. apply includes_false_search, search_none_last in H.
  induction a as [|x a IH]; simpl.
  - now rewrite H, Ascii.eqb_refl.
  - simpl in IH. now rewrite IH.
Qed.

Lemma slice_from (a b : string) :
  slice (a +++ b) (Z.of_nat (String.length a)) None = b.
Proof.
  unfold slice, clamp. rewrite length_append.
  destruct (Z.ltb_spec (Z.of_nat (String.length a)) 0) as [H|H]; [lia|].
  rewrite Z.min_l by lia. rewrite Nat2Z.id, skip_append.
  apply take_all. lia.
Qed.

Lemma slice_upto (a b : string) :
  slice (a +++ b) 0 (Some (Z.of_nat (String.length a))) = a.
Proof.
  unfold slice, clamp. rewrite length_append. simpl (0 <? 0).
  destruct (Z.ltb_spec (Z.of_nat (String.length a)) 0) as [H|H]; [lia|].
  rewrite !Z.min_l by lia. simpl (skip _ _).
  rewrite Z.sub_0_r, Z.max_l by lia. rewrite Nat2Z.id. apply take_append.
Qed.

Lemma slice_whole (s : string) : slice s 0 None = s.
Proof. exact (slice_from "" s). Qed.

Lemma slice_nothing (s : string) : slice s 0 (Some 0) = "".
Proof. exact (slice_upto "" s). Qed.

End StringFacts.

(** *** getPathInfo *)

Section PathInfoFacts.

Import Models.

(** The result is determined by the decoded URN alone. *)
Lemma getPathInfo_decoded (e1 e2 : Value) :
  decodeURIComponent (toString e1) = decodeURIComponent (toString e2) ->
  getPathInfo e1 = getPathInfo e2.
Proof. unfold getPathInfo. now intros ->. Qed.

Lemma slash_length (dir : string) :
  Z.of_nat (String.length (dir +++ "/")) = Z.of_nat (String.length dir) + 1.
Proof. rewrite length_append. simpl. lia. Qed.

(** The file name is what follows the last [/], the base path what comes
    before it, the [/] included. *)
Lemma getPathInfo_split (encodedURN : Value) (dir file : string) :
  decodeURIComponent (toString encodedURN) = Ok (dir +++ "/" +++ file) ->
  includes file "/" = false ->
  exists localPath,
    getPathInfo encodedURN
    = Ok {| urn := dir +++ "/" +++ file; rootFileName := file;
            localPath := localPath; basePath := dir +++ "/" |}.
Proof.
  intros Hdec Hfile. unfold getPathInfo. rewrite Hdec. simpl bind.
  unfold lastIndexOf. change ("/" +++ file) with (String "/" file).
  rewrite searchLast_last by exact Hfile. simpl position.
  rewrite <- slash_length.
  change (dir +++ String "/" file) with (dir +++ "/" +++ file).
  rewrite <- append_assoc, slice_from, slice_upto. eexists. reflexivity.
Qed.

(** The local path is the base path without its first segment and without
    a leading [output/]. *)
Lemma getPathInfo_localPath (encodedURN : Value) (info : PathInfo)
    (bucket rest : string) :
  getPathInfo encodedURN = Ok info ->
  basePath info = bucket +++ "/" +++ rest ->
  includes bucket "/" = false ->
  localPath info = replacePrefix rest "output/".
Proof.
  unfold getPathInfo. destruct (decodeURIComponent _) as [u|]; [|discriminate].
  simpl. intros [= <-]. simpl. intros -> Hb.
  unfold indexOf. change ("/" +++ rest) with (String "/" rest).
  rewrite search_first by exact Hb. simpl position.
  rewrite <- slash_length.
  change (bucket +++ String "/" rest) with (bucket +++ "/" +++ rest).
  now rewrite <- append_assoc, slice_from.
Qed.

(** C4: [getPathInfo] is a function of its argument, through the decoded
    URN only, and for an argument that decodes to
    ["bucket/output/dir/sub/file.ext"] it returns the root file name
    ["file.ext"], the base path ["bucket/output/dir/sub/"] and the local
    path ["dir/sub/"]. *)
Theorem getPathInfo_example (encodedURN : Value) :
  decodeURIComponent (toString encodedURN)
  = Ok "bucket/output/dir/sub/file.ext" ->
  getPathInfo encodedURN
  = Ok {| urn := "bucket/output/dir/sub/file.ext";
          rootFileName := "file.ext";
          localPath := "dir/sub/";
          basePath := "bucket/output/dir/sub/" |}
  /\ forall other : Value,
       decodeURIComponent (toString other)
       = decodeURIComponent (toString encodedURN) ->
       getPathInfo other = getPathInfo encodedURN.
Proof.
  intros Hdec. split.
  - destruct (getPathInfo_split encodedURN "bucket/output/dir/sub" "file.ext")
      as [lp Hinfo]; [exact Hdec | reflexivity |].
    rewrite Hinfo. f_equal. f_equal.
    now apply (getPathInfo_localPath encodedURN _ "bucket" "output/dir/sub/"
                 Hinfo).
  - intros other. apply getPathInfo_decoded.
Qed.

Lemma getPathInfo_example_witness :
  decodeURIComponent (toString (Str "bucket%2Foutput/dir%2Fsub/file.ext"))
  = Ok "bucket/output/dir/sub/file.ext"
  /\ getPathInfo (Str "bucket%2Foutput/dir%2Fsub/file.ext")
     = Ok {| urn := "bucket/output/dir/sub/file.ext";
             rootFileName := "file.ext";
             localPath := "dir/sub/";
             basePath := "bucket/output/dir/sub/" |}.
Proof.
  split; [reflexivity|].
  exact (proj1 (getPathInfo_example
                  (Str "bucket%2Foutput/dir%2Fsub/file.ext") eq_refl)).
Defined.

(** C10: when the decoded URN has no [/], [getPathInfo] does not throw;
    the root file name is the whole decoded URN, the base path and the
    local path are empty. *)
Theorem getPathInfo_no_slash (encodedURN : Value) (decoded : string) :
  decodeURIComponent (toString encodedURN) = Ok decoded ->
  includes decoded "/" = false ->
  getPathInfo encodedURN
  = Ok {| urn := decoded; rootFileName := decoded;
          localPath := ""; basePath := "" |}.
Proof.
  intros Hdec Hno. unfold getPathInfo. rewrite Hdec. simpl bind.
  unfold lastIndexOf.
  rewrite (search_none_last _ _ (includes_false_search _ _ Hno)).
  simpl position. simpl (-1 + 1).
  rewrite slice_whole, slice_nothing. reflexivity.
Qed.

Lemma getPathInfo_no_slash_witness :
  decodeURIComponent (toString (Str "model%20one.svf")) = Ok "model one.svf"
  /\ includes "model one.svf" "/" = false
  /\ getPathInfo (Str "model%20one.svf")
     = Ok {| urn := "model one.svf"; rootFileName := "model one.svf";
             localPath := ""; basePath := "" |}.
Proof.
  split; [reflexivity|]. split; [reflexivity|].
  apply (getPathInfo_no_slash (Str "model%20one.svf") "model one.svf");
    reflexivity.
Defined.

End PathInfoFacts.

(** *** parseManifest *)

Section ParseFacts.

Import Models.

(** Induction on a node with the property available for every child. *)
Lemma Node_forest_ind (P : Node -> Prop) :
  (forall r g m u, P (mkNode r g m u None)) ->
  (forall r g m u cs, Forall P cs -> P (mkNode r g m u (Some cs))) ->
  forall n, P n.
Proof.
  intros Hleaf Hnode.
  fix IH 1. intros [r g m u [cs|]]; [|apply Hleaf].
  apply Hnode. induction cs as [|c cs IHcs]; constructor;
    [apply IH | exact IHcs].
Qed.

Lemma bind_assoc {A B C} (m : JsResult A) (f : A -> JsResult B)
    (g : B -> JsResult C) :
  bind (bind m f) g = bind m (fun a => bind (f a) g).
Proof. now destruct m. Qed.

Lemma collect_app (a b : list Node) (items : list Item) :
  collect (a ++ b) items = let! items := collect a items in collect b items.
Proof.
  revert items; induction a as [|n a IH]; intros items; simpl; [reflexivity|].
  rewrite bind_assoc. destruct (allowed n); simpl.
  - destruct (describe n); simpl; [apply IH | reflexivity].
  - apply IH.
Qed.

(** [parse] is the walk over the nodes of the tree in document order. *)
Lemma parse_collect (node : Node) :
  forall items, parse node items = collect (nodes node) items.
Proof.
  induction node as [r g m u | r g m u cs IH] using Node_forest_ind;
    intros items; simpl; unfold allowed, describe; simpl.
  - destruct (roles_includes r); simpl; [|reflexivity].
    destruct (getPathInfo u); reflexivity.
  - assert (forall items,
      (fix forEach (cs : list Node) (items : list Item) :=
         match cs with
         | [] => Ok items
         | c :: cs' => let! items := parse c items in forEach cs' items
         end) cs items = collect (flat_map nodes cs) items) as Hcs.
    { induction IH as [|c cs Hc _ IHcs]; intros acc; simpl; [reflexivity|].
      rewrite collect_app, Hc. destruct (collect (nodes c) acc); simpl;
        [apply IHcs | reflexivity]. }
    destruct (roles_includes r); simpl.
    + destruct (getPathInfo u); simpl; [apply Hcs | reflexivity].
    + apply Hcs.
Qed.

Lemma parseManifest_collect (manifest : Manifest) :
  parseManifest manifest = collect (forest (derivatives manifest)) [].
Proof.
  unfold parseManifest. rewrite parse_collect.
  destruct (derivatives manifest); reflexivity.
Qed.

Lemma describe_ok (n : Node) :
  is_ok (decodeURIComponent (toString (n_urn n))) = true ->
  exists item, describe n = Ok item.
Proof.
  unfold describe, getPathInfo.
  destruct (decodeURIComponent (toString (n_urn n))); [|discriminate].
  intros _. eexists. reflexivity.
Qed.

(** When every allowed node can be described, the walk returns, and it adds
    one item per allowed node, in order. *)
Lemma collect_ok (ns : list Node) :
  (forall n, In n ns -> allowed n = true ->
             is_ok (decodeURIComponent (toString (n_urn n))) = true) ->
  forall items, exists added,
    collect ns items = Ok (items ++ added)
    /\ map Ok added = map describe (filter allowed ns).
Proof.
  induction ns as [|n ns IH]; intros Hdec items; simpl.
  - exists []. now rewrite app_nil_r.
  - assert (forall x, In x ns -> allowed x = true ->
              is_ok (decodeURIComponent (toString (n_urn x))) = true) as Hns
      by (intros x Hx; apply Hdec; now right).
    destruct (allowed n) eqn:Hal; simpl.
    + destruct (describe_ok n (Hdec n (or_introl eq_refl) Hal)) as [i Hi].
      rewrite Hi. simpl.
      destruct (IH Hns (items ++ [i])) as (added & Hc & Hm).
      exists (i :: added). rewrite Hc, <- app_assoc. simpl.
      now rewrite Hm.
    + apply (IH Hns).
Qed.

(** A descendant of a node of the forest is a node of the forest. *)
Lemma nodes_descendant (parent child : Node) (cs : list Node) :
  In parent (flat_map nodes cs) -> In child (nodes parent) ->
  In child (flat_map nodes cs).
Proof.
  revert parent child.
  assert (forall t parent child,
            In parent (nodes t) -> In child (nodes parent) ->
            In child (nodes t)) as Htree.
  { induction t as [r g m u | r g m u ts IH] using Node_forest_ind;
      intros parent child Hp Hc.
    - destruct Hp as [<-|[]]. exact Hc.
    - destruct Hp as [<-|Hp]; [exact Hc|]. right.
      apply in_flat_map in Hp as (t & Ht & Hp). apply in_flat_map.
      exists t. split; [exact Ht|].
      rewrite Forall_forall in IH. now apply (IH t Ht parent child). }
  intros parent child Hp Hc.
  apply in_flat_map in Hp as (t & Ht & Hp). apply in_flat_map.
  exists t. split; [exact Ht | now apply (Htree t parent child)].
Qed.

(** C3, as amended: when the URN of every allowed node of the manifest
    decodes, [parseManifest] returns one item per node of the tree, at any
    depth, whose role is in the allow-list, in document order; a node
    whose role is not allowed gives no item, and the allowed nodes below it
    still give theirs. *)
Theorem parseManifest_allowed_nodes (manifest : Manifest) :
  (forall n, In n (forest (derivatives manifest)) -> allowed n = true ->
             is_ok (decodeURIComponent (toString (n_urn n))) = true) ->
  exists items,
    parseManifest manifest = Ok items
    /\ List.length items
       = List.length (filter allowed (forest (derivatives manifest)))
    /\ map Ok items = map describe (filter allowed (forest (derivatives manifest)))
    /\ forall parent child,
         In parent (forest (derivatives manifest)) -> allowed parent = false ->
         In child (nodes parent) -> allowed child = true ->
         exists item, In item items /\ describe child = Ok item.
Proof.
  intros Hdec. rewrite parseManifest_collect.
  destruct (collect_ok _ Hdec []) as (items & Hc & Hm). simpl in Hc.
  exists items. split; [exact Hc|]. split; [|split; [exact Hm|]].
  - rewrite <- (length_map Ok items), Hm. apply length_map.
  - intros parent child Hp _ Hchild Hal.
    assert (In child (forest (derivatives manifest))) as Hin.
    { destruct (derivatives manifest) as [cs|]; [|contradiction].
      now apply (nodes_descendant parent child cs). }
    assert (In (describe child) (map Ok items)) as Hd.
    { rewrite Hm. apply in_map, filter_In. now split. }
    apply in_map_iff in Hd as (item & Hi & Hitem). now exists item.
Qed.

Lemma parseManifest_allowed_nodes_witness :
  exists items,
    parseManifest nestedManifest = Ok items /\ List.length items = 2%nat.
Proof.
  destruct (parseManifest_allowed_nodes nestedManifest) as (items & H & Hl & _).
  - intros n Hn _. simpl in Hn.
    repeat (destruct Hn as [<-|Hn]; [reflexivity|]). contradiction.
  - exists items. split; [exact H | exact Hl].
Defined.

(** The claim C3 as it is written fails on a manifest with an allowed node
    whose URN is not a well-formed percent-encoding: [parseManifest]
    throws. *)
Lemma parseManifest_malformed_urn :
  parseManifest malformedManifest = Throw "URIError: URI malformed"
  /\ ~ exists items,
         parseManifest malformedManifest = Ok items
         /\ List.length items
            = List.length
                (filter allowed (forest (derivatives malformedManifest))).
Proof.
  split; [reflexivity|]. intros (items & H & _). discriminate H.
Qed.

(** C6: a manifest without [derivatives] gives the empty list of items,
    not an error. *)
Theorem parseManifest_no_derivatives (manifest : Manifest) :
  derivatives manifest = None -> parseManifest manifest = Ok [].
Proof. unfold parseManifest. now intros ->. Qed.

Lemma parseManifest_no_derivatives_witness :
  derivatives (mkManifest None) = None
  /\ parseManifest (mkManifest None) = Ok [].
Proof.
  split; [reflexivity|].
  apply (parseManifest_no_derivatives (mkManifest None)). reflexivity.
Defined.

End ParseFacts.

(** *** The file enumerator *)

Section EnumeratorFacts.

Import Models.

Lemma notEmbedded_includes (uri : string) :
  notEmbedded uri = negb (includes uri "embed:/").
Proof.
  unfold notEmbedded, indexOf, includes.
  destruct (search uri "embed:/") as [n|]; simpl; [|reflexivity].
  apply Z.eqb_neq. lia.
Qed.

(** C5, as amended: for an item whose mime is [application/autodesk-db]
    the enumerator requests nothing from the service, whatever the service
    is, and returns six file names: the five fixed ones and the root file
    name of the item. *)
Theorem enumerateFiles_db (service : Service) (item : Item) (token : string)
    (log : list string) :
  mime item = Str "application/autodesk-db" ->
  enumerateFiles service item token log
  = (Ok [ "objects_attrs.json.gz"; "objects_vals.json.gz";
          "objects_offs.json.gz"; "objects_ids.json.gz";
          "objects_avs.json.gz"; rootFileName (path item) ], log)
  /\ forall names, fst (enumerateFiles service item token log) = Ok names ->
                   List.length names = 6%nat.
Proof.
  intros H. unfold enumerateFiles. rewrite H. split; [reflexivity|].
  simpl. now intros names [= <-].
Qed.

Lemma enumerateFiles_db_witness :
  mime dbItem = Str "application/autodesk-db"
  /\ enumerateFiles offline dbItem "token" []
     = (Ok [ "objects_attrs.json.gz"; "objects_vals.json.gz";
             "objects_offs.json.gz"; "objects_ids.json.gz";
             "objects_avs.json.gz"; "properties.db" ], []).
Proof.
  split; [reflexivity|].
  exact (proj1 (enumerateFiles_db offline dbItem "token" [] eq_refl)).
Defined.

(** The claim C5 as it is written, with seven file names, fails: the list
    has six. *)
Lemma enumerateFiles_db_not_seven :
  ~ exists names,
      enumerateFiles offline dbItem "token" [] = (Ok names, [])
      /\ List.length names = 7%nat.
Proof. intros (names & H & Hlen). injection H as <-. discriminate Hlen. Qed.

(** C7: for an item whose mime is [application/autodesk-svf] and whose
    download is an archive with a [manifest.json] that parses, the
    enumerator returns the URIs of [assets], in order, without those that
    contain [embed:/]; it returns the empty list when there is no
    [assets]; and the assets [a.png] and [embed:/b] give [a.png] alone. *)
Theorem enumerateFiles_svf (service : Service) (item : Item) (token : string)
    (log : list string) (files : list (string * Text))
    (manifest : AssetManifest) :
  mime item = Str "application/autodesk-svf" ->
  service (BaseUrl +++ "/derivativeservice/v2/derivatives/"
             +++ encodeURIComponent (urn (path item))) ("Bearer " +++ token)
  = Ok (Zip files) ->
  asText files "manifest.json" = Ok (Json manifest) ->
  fst (enumerateFiles service item token log)
  = Ok (match assets manifest with
        | Some l => filter (fun uri => negb (includes uri "embed:/")) (map URI l)
        | None => []
        end)
  /\ (forall l uri,
        assets manifest = Some l ->
        In uri (filter (fun uri => negb (includes uri "embed:/")) (map URI l))
        <-> In uri (map URI l)
            /\ ~ exists a b, uri = a +++ "embed:/" +++ b)
  /\ (assets manifest = Some [ mkAsset "a.png"; mkAsset "embed:/b" ] ->
      fst (enumerateFiles service item token log) = Ok [ "a.png" ]).
Proof.
  intros Hmime Hget Htext.
  assert (fst (enumerateFiles service item token log)
          = Ok (match assets manifest with
                | Some l =>
                    filter (fun uri => negb (includes uri "embed:/")) (map URI l)
                | None => []
                end)) as Hres.
  { unfold enumerateFiles. rewrite Hmime.
    unfold getDerivativesSVF, await, getDerivative, lift.
    rewrite Hget. simpl. rewrite Htext. simpl.
    destruct (assets manifest) as [l|]; simpl; [|reflexivity].
    f_equal. apply filter_ext. intros uri. apply notEmbedded_includes. }
  split; [exact Hres|]. split.
  - intros l uri _. rewrite filter_In, negb_true_iff, <- includes_iff.
    destruct (includes uri "embed:/"); intuition congruence.
  - intros Has. rewrite Hres, Has. reflexivity.
Qed.

Lemma enumerateFiles_svf_witness :
  fst (enumerateFiles svfService svfItem "token" []) = Ok [ "a.png" ].
Proof.
  refine (proj2 (proj2 (enumerateFiles_svf svfService svfItem "token" []
            [ ("0.pf", NotJson "");
              ("manifest.json",
               Json {| assets := Some [ mkAsset "a.png"; mkAsset "embed:/b" ] |}) ]
            {| assets := Some [ mkAsset "a.png"; mkAsset "embed:/b" ] |}
            _ _ _)) _); reflexivity.
Defined.

End EnumeratorFacts.

(** *** The cache *)

Section CacheFacts.

Import Worker.

Lemma cache_match_app (url : string) (c1 c2 : Cache) :
  cache_match url (c1 ++ c2)
  = match cache_match url c1 with
    | Some resp => Some resp
    | None => cache_match url c2
    end.
Proof.
  induction c1 as [|[k r] c1 IH]; simpl; [reflexivity|].
  now destruct (String.eqb k url).
Qed.

Lemma cache_match_delete (url url' : string) (cache : Cache) :
  cache_match url (cache_delete url' cache)
  = if String.eqb url' url then None else cache_match url cache.
Proof.
  induction cache as [|[k r] cache IH]; simpl.
  - now destruct (String.eqb url' url).
  - destruct (String.eqb_spec k url') as [->|Hk]; simpl.
    + rewrite IH. now destruct (String.eqb url' url).
    + rewrite IH. destruct (String.eqb_spec k url) as [->|Hku];
        [|reflexivity].
      destruct (String.eqb_spec url' url) as [->|]; [contradiction|reflexivity].
Qed.

Lemma cache_match_put (url url' : string) (resp : Response) (cache : Cache) :
  cache_match url (cache_put url' resp cache)
  = if String.eqb url' url then Some resp else cache_match url cache.
Proof.
  unfold cache_put. rewrite cache_match_app, cache_match_delete. simpl.
  destruct (String.eqb url' url); [reflexivity|].
  now destruct (cache_match url cache).
Qed.

Lemma cache_match_In (url : string) (resp : Response) (cache : Cache) :
  cache_match url cache = Some resp -> In (url, resp) cache.
Proof.
  induction cache as [|[k r] cache IH]; simpl; [discriminate|].
  destruct (String.eqb_spec k url) as [->|_].
  - intros [= ->]. now left.
  - intros H. right. now apply IH.
Qed.

(** Deleting a list of URLs one after the other removes the entries of
    these URLs and nothing else. *)
Lemma delete_all (urls : list string) (cache : Cache) :
  fold_left (fun cache url => cache_delete url cache) urls cache
  = filter (fun entry => negb (existsb (String.eqb (fst entry)) urls)) cache.
Proof.
  revert cache; induction urls as [|u urls IH]; intros cache; simpl.
  - induction cache as [|e cache IHc]; simpl; [reflexivity | now f_equal].
  - rewrite IH. unfold cache_delete.
    induction cache as [|e cache IHc]; simpl; [reflexivity|].
    destruct (String.eqb (fst e) u); simpl; [exact IHc|].
    destruct (existsb (String.eqb (fst e)) urls); simpl;
      [exact IHc | now f_equal].
Qed.

Lemma filter_keys (f : string -> bool) (cache : Cache) :
  filter f (cache_keys cache) = map fst (filter (fun entry => f (fst entry)) cache).
Proof.
  induction cache as [|e cache IH]; simpl; [reflexivity|].
  destruct (f (fst e)); simpl; now rewrite IH.
Qed.

Lemma existsb_eqb_In (url : string) (urls : list string) :
  existsb (String.eqb url) urls = true <-> In url urls.
Proof.
  rewrite existsb_exists. split.
  - intros (x & Hx & E). apply String.eqb_eq in E. now subst.
  - intros H. exists url. split; [exact H | apply String.eqb_refl].
Qed.

(** C8: [clearUrn] returns the cached URLs that contain [urn], in the
    order of the keys; it deletes the entries of exactly these URLs, every
    other entry stays as it is and where it is; when no cached URL
    contains [urn] it returns the empty list and the cache is unchanged. *)
Theorem clearUrn_exact (urn : string) (cache : Cache) :
  fst (clearUrn urn cache)
  = Ok (filter (fun url => includes url urn) (cache_keys cache))
  /\ snd (clearUrn urn cache)
     = filter (fun entry => negb (includes (fst entry) urn)) cache
  /\ (forall url,
        In url (filter (fun url => includes url urn) (cache_keys cache))
        <-> In url (cache_keys cache) /\ exists a b, url = a +++ urn +++ b)
  /\ (forall url resp, In (url, resp) (snd (clearUrn urn cache))
                       <-> In (url, resp) cache
                           /\ ~ exists a b, url = a +++ urn +++ b)
  /\ (forall url, cache_match url (snd (clearUrn urn cache))
                  = if includes url urn then None else cache_match url cache)
  /\ ((forall url, In url (cache_keys cache) ->
                   ~ exists a b, url = a +++ urn +++ b) ->
      clearUrn urn cache = (Ok [], cache)).
Proof.
  assert (snd (clearUrn urn cache)
          = filter (fun entry => negb (includes (fst entry) urn)) cache) as Hsnd.
  { unfold clearUrn. simpl. rewrite delete_all. apply filter_ext_in.
    intros [k r] Hin. simpl. f_equal.
    destruct (includes k urn) eqn:E.
    - apply existsb_eqb_In, filter_In. split; [|exact E].
      apply in_map_iff. now exists (k, r).
    - destruct (existsb _ _) eqn:E'; [|reflexivity].
      apply existsb_eqb_In, filter_In in E' as [_ E']. congruence. }
  split; [reflexivity|]. split; [exact Hsnd|]. split; [|split; [|split]].
  - intros url. now rewrite filter_In, includes_iff.
  - intros url resp. rewrite Hsnd, filter_In. simpl.
    rewrite negb_true_iff, <- includes_iff.
    destruct (includes url urn); intuition congruence.
  - intros url. rewrite Hsnd. clear Hsnd.
    induction cache as [|[k r] cache IH]; simpl.
    + now destruct (includes url urn).
    + destruct (String.eqb_spec k url) as [->|Hk].
      * destruct (includes url urn) eqn:E; simpl; [exact IH|].
        now rewrite String.eqb_refl.
      * destruct (includes k urn); simpl; [exact IH|].
        destruct (String.eqb_spec k url); [contradiction | exact IH].
  - intros Hnone.
    assert (forall entry, In entry cache ->
              includes (fst entry) urn = false) as Hfalse.
    { intros [k r] Hin. simpl. destruct (includes k urn) eqn:E;
        [|reflexivity].
      exfalso. apply (Hnone k); [|now apply includes_iff].
      apply in_map_iff. now exists (k, r). }
    rewrite (surjective_pairing (clearUrn urn cache)), Hsnd. f_equal.
    + unfold clearUrn. simpl. rewrite filter_keys. f_equal.
      replace (filter _ cache) with (@nil (string * Response)); [reflexivity|].
      symmetry. clear Hnone Hsnd.
      induction cache as [|e cache IH]; simpl; [reflexivity|].
      rewrite (Hfalse e) by now left. apply IH.
      intros x Hx. apply Hfalse. now right.
    + clear Hnone Hsnd.
      induction cache as [|e cache IH]; simpl; [reflexivity|].
      rewrite (Hfalse e) by now left. simpl. f_equal. apply IH.
      intros x Hx. apply Hfalse. now right.
Qed.

End CacheFacts.

(** *** cacheUrn *)

Section CacheUrnFacts.

Import Worker.

Variable net : Network.

Lemma insertAt_perm {A} (n : nat) (x : A) (l : list A) :
  Permutation (insertAt n x l) (x :: l).
Proof.
  revert n; induction l as [|y l IH]; intros [|n]; simpl; try reflexivity.
  rewrite IH. apply perm_swap.
Qed.

(** Whatever the schedule, every job completes, once. *)
Lemma completionOrder_perm {A} (schedule : Schedule) (jobs : list A) :
  Permutation (completionOrder schedule jobs) jobs.
Proof.
  revert schedule; induction jobs as [|j jobs IH]; intros schedule; simpl;
    [reflexivity|].
  rewrite insertAt_perm. now constructor.
Qed.

Lemma insertAt_middle {A} (x : A) (l1 l2 : list A) :
  insertAt (List.length l1) x (l1 ++ l2) = l1 ++ x :: l2.
Proof.
  induction l1 as [|y l1 IH]; simpl; [now destruct l2 | now rewrite IH].
Qed.

(** And every order of completion is the order of some schedule. *)
Lemma completionOrder_any {A} (jobs order : list A) :
  Permutation order jobs ->
  exists schedule, completionOrder schedule jobs = order.
Proof.
  revert order; induction jobs as [|j jobs IH]; intros order HP.
  - apply Permutation_sym, Permutation_nil in HP. subst. now exists [].
  - destruct (in_split j order) as (l1 & l2 & ->).
    { apply (Permutation_in _ (Permutation_sym HP)). now left. }
    apply Permutation_sym, Permutation_cons_app_inv, Permutation_sym in HP.
    destruct (IH _ HP) as [s Hs].
    exists (List.length l1 :: s). simpl. rewrite Hs. apply insertAt_middle.
Qed.

Lemma push_files (derivative : Derivative) (files fetches : list string) :
  fold_left (fun fetches file => fetches ++ [fileUrl derivative file])
    files fetches
  = fetches ++ map (fileUrl derivative) files.
Proof.
  revert fetches; induction files as [|f files IH]; intros fetches; simpl.
  - now rewrite app_nil_r.
  - now rewrite IH, <- app_assoc.
Qed.

(** The array [fetches]: what was there, then for each derivative its own
    URL followed by the URLs of its files. *)
Lemma pushAll_flat (fetches : list string) (derivatives : list Derivative) :
  pushAll fetches derivatives
  = fetches
    ++ flat_map (fun d => derivUrl d :: map (fileUrl d) (files d)) derivatives.
Proof.
  unfold pushAll.
  revert fetches; induction derivatives as [|d ds IH]; intros fetches; simpl.
  - now rewrite app_nil_r.
  - now rewrite IH, push_files, <- !app_assoc.
Qed.

Lemma settle_cache (options : string) (order : list string) (cache : Cache)
    (rejection : option string) :
  snd (settle net options order cache rejection)
  = cache_putAll (fulfilled net options order) cache.
Proof.
  revert cache rejection; induction order as [|url order IH];
    intros cache rejection; simpl; [reflexivity|].
  unfold fetchAndPut, stored.
  destruct (fetch net (requestUrl net url) options) as [resp|err];
    [destruct (storable resp)|]; simpl; apply IH.
Qed.

(** A rejection, once there, stays; without one, the outcome is a rejection
    exactly when a job of the order is rejected. *)
Lemma settle_rejected (options : string) (order : list string) (cache : Cache)
    (err : string) :
  fst (settle net options order cache (Some err)) = Some err.
Proof.
  revert cache; induction order as [|url order IH]; intros cache; simpl;
    [reflexivity|].
  unfold fetchAndPut.
  destruct (fetch net (requestUrl net url) options) as [resp|e];
    [destruct (storable resp)|]; apply IH.
Qed.

Lemma settle_fulfilled (options : string) (order : list string) (cache : Cache) :
  (forall url, In url order ->
               jobError net options (requestUrl net url) = None) ->
  fst (settle net options order cache None) = None.
Proof.
  revert cache; induction order as [|url order IH]; intros cache Hall; simpl;
    [reflexivity|].
  pose proof (Hall url (or_introl eq_refl)) as Hurl.
  unfold fetchAndPut. unfold jobError in Hurl.
  destruct (fetch net (requestUrl net url) options) as [resp|e];
    [|discriminate].
  destruct (storable resp); [|discriminate].
  apply IH. intros u Hu. apply Hall. now right.
Qed.

Lemma settle_first_rejection (options : string) (order : list string)
    (cache : Cache) :
  (exists url err,
     In url order /\ jobError net options (requestUrl net url) = Some err) ->
  exists url err,
    In url order /\ jobError net options (requestUrl net url) = Some err
    /\ fst (settle net options order cache None) = Some err.
Proof.
  revert cache; induction order as [|url order IH]; intros cache;
    intros (u & e & Hin & Hu); [contradiction|]. simpl.
  destruct (jobError net options (requestUrl net url)) as [err|] eqn:E.
  - exists url, err. split; [now left|]. split; [exact E|].
    unfold fetchAndPut. unfold jobError in E.
    destruct (fetch net (requestUrl net url) options) as [resp|e'].
    + destruct (storable resp); [discriminate|]. injection E as <-.
      apply settle_rejected.
    + injection E as <-. apply settle_rejected.
  - destruct Hin as [->|Hin]; [congruence|].
    unfold fetchAndPut. unfold jobError in E.
    destruct (fetch net (requestUrl net url) options) as [resp|e'];
      [|discriminate].
    destruct (storable resp); [|discriminate].
    destruct (IH (cache_put (requestUrl net url) resp cache))
      as (u' & e' & Hin' & Hu' & Hs).
    { now exists u, e. }
    exists u', e'. split; [now right | now split].
Qed.

Lemma settle_none (options : string) (order : list string) (cache : Cache) :
  fst (settle net options order cache None) = None ->
  forall url, In url order -> jobError net options (requestUrl net url) = None.
Proof.
  intros Hnone url Hin.
  destruct (jobError net options (requestUrl net url)) as [err|] eqn:E;
    [|reflexivity].
  destruct (settle_first_rejection options order cache)
    as (u & e & _ & _ & Hs); [now exists url, err | congruence].
Qed.

Lemma stored_or_error (options request : string) :
  (exists resp, stored net options request = Some resp
                /\ jobError net options request = None
                /\ fetch net request options = Ok resp
                /\ storable resp = true)
  \/ (exists err, stored net options request = None
                  /\ jobError net options request = Some err).
Proof.
  unfold stored, jobError.
  destruct (fetch net request options) as [resp|err].
  - destruct (storable resp) eqn:E; [left; now exists resp | right].
    now exists putRefused.
  - right. now exists err.
Qed.

Lemma existsb_perm (url : string) (l l' : list string) :
  Permutation l l' ->
  existsb (String.eqb url) l = existsb (String.eqb url) l'.
Proof.
  intros HP. apply eq_true_iff_eq. rewrite !existsb_eqb_In.
  split; apply Permutation_in; [exact HP | now symmetry].
Qed.

(** What the cache answers for a URL once the jobs have run: the response
    a job has stored for it when there is one, what it answered before
    otherwise. *)
Lemma settle_match (options : string) (order : list string) (key : string) :
  forall cache rejection,
  cache_match key (snd (settle net options order cache rejection))
  = if existsb (String.eqb key) (map (requestUrl net) order)
    then match stored net options key with
         | Some resp => Some resp
         | None => cache_match key cache
         end
    else cache_match key cache.
Proof.
  induction order as [|u order IH]; intros cache rejection; simpl;
    [reflexivity|].
  unfold fetchAndPut.
  destruct (String.eqb_spec key (requestUrl net u)) as [->|Hne]; simpl.
  - unfold stored at 1.
    destruct (fetch net (requestUrl net u) options) as [resp|err] eqn:E;
      [destruct (storable resp) eqn:Es|]; rewrite IH; unfold stored;
      rewrite E; try rewrite Es; try rewrite cache_match_put;
      try rewrite String.eqb_refl;
      now destruct (existsb _ _).
  - destruct (fetch net (requestUrl net u) options) as [resp|err] eqn:E;
      [destruct (storable resp) eqn:Es|]; rewrite IH; try reflexivity.
    rewrite cache_match_put.
    destruct (String.eqb_spec (requestUrl net u) key) as [Heq|_];
      [now symmetry in Heq | reflexivity].
Qed.

Lemma promiseAll_cache (schedule : Schedule) (options : string)
    (fetches : list string) (cache : Cache) :
  snd (promiseAll net schedule options fetches cache)
  = snd (settle net options (completionOrder schedule fetches) cache None).
Proof.
  unfold promiseAll.
  now destruct (settle net options _ cache None) as [[err|] cache'].
Qed.

Lemma promiseAll_result (schedule : Schedule) (options : string)
    (fetches : list string) (cache : Cache) :
  fst (promiseAll net schedule options fetches cache)
  = match fst (settle net options (completionOrder schedule fetches) cache None)
    with
    | None => Ok fetches
    | Some err => Throw err
    end.
Proof.
  unfold promiseAll.
  now destruct (settle net options _ cache None) as [[err|] cache'].
Qed.

Lemma pushAll_step (fetches : list string) (d : Derivative)
    (ds : list Derivative) :
  pushAll fetches (d :: ds) = pushAll (pushAll fetches [d]) ds.
Proof. reflexivity. Qed.

(** On an array of elements of the right shape the loops do not throw,
    and the jobs started are those of [pushAll]. *)
Lemma pushElements_shaped (derivatives : list Derivative) :
  forall fetches,
  pushElements fetches (map Shaped derivatives)
  = (pushAll fetches derivatives, None).
Proof.
  induction derivatives as [|d ds IH]; intros fetches; simpl map;
    [reflexivity|].
  cbn [pushElements]. now rewrite IH, <- pushAll_step.
Qed.

(** The cache after [cacheUrn] is the cache after the jobs started, and
    the task returns when the loops and every job succeed. *)
Lemma cacheUrn_cache (schedule : Schedule) (urn token : string) (cache : Cache) :
  snd (cacheUrn net schedule urn token cache)
  = snd (settle net ("Bearer " +++ token)
           (completionOrder schedule (started net urn)) cache None).
Proof.
  unfold cacheUrn, started.
  destruct (fetchJson net ("/api/models/" +++ urn +++ "/files"))
    as [json|err]; [|reflexivity].
  cbv zeta.
  destruct (loops [baseUrl +++ "/manifest/" +++ urn] json)
    as [fetches [err|]]; [reflexivity|].
  apply promiseAll_cache.
Qed.

Lemma cacheUrn_shaped (schedule : Schedule) (urn token : string) (cache : Cache)
    (derivatives : list Derivative) :
  fetchJson net ("/api/models/" +++ urn +++ "/files")
  = Ok (Iterable (map Shaped derivatives)) ->
  cacheUrn net schedule urn token cache
  = promiseAll net schedule ("Bearer " +++ token)
      (pushAll [baseUrl +++ "/manifest/" +++ urn] derivatives) cache.
Proof.
  intros H. unfold cacheUrn. rewrite H. cbv zeta. unfold loops.
  now rewrite pushElements_shaped.
Qed.

(** C2, as amended: when the file list of the model is obtained as an
    array of derivatives with their files, [cacheUrn] fetches the manifest
    URL, the URL of each derivative and the URL of each of its files,
    whatever the order in which the fetches complete.  A job fails when
    its fetch is rejected or when the cache does not accept its response
    (status 206, [Vary: *]); a response with an error status is no
    failure, it is stored like any other.  If no job fails the task
    returns the URLs, in the order they were started; if one fails the
    task is rejected, with the error of a job that failed; in both cases
    every job that did not fail has put its response in the cache, under
    the URL of its request, so none waits for another. *)
Theorem cacheUrn_all_or_nothing (schedule : Schedule) (urn token : string)
    (cache : Cache) (derivatives : list Derivative) :
  fetchJson net ("/api/models/" +++ urn +++ "/files")
  = Ok (Iterable (map Shaped derivatives)) ->
  let options := "Bearer " +++ token in
  let urls :=
    (baseUrl +++ "/manifest/" +++ urn)
    :: flat_map
         (fun d =>
            (baseUrl +++ "/derivatives/" +++ encodeURIComponent (Worker.urn d))
            :: map (fun file =>
                      baseUrl +++ "/derivatives/"
                        +++ encodeURIComponent (basePath d +++ file))
                 (files d))
         derivatives in
  let result := cacheUrn net schedule urn token cache in
  ((forall url, In url urls ->
      exists resp, fetch net (requestUrl net url) options = Ok resp
                   /\ storable resp = true) ->
   fst result = Ok urls)
  /\ ((exists url, In url urls
         /\ ((exists err, fetch net (requestUrl net url) options = Throw err)
             \/ exists resp, fetch net (requestUrl net url) options = Ok resp
                             /\ storable resp = false)) ->
      exists url err,
        In url urls /\ jobError net options (requestUrl net url) = Some err
        /\ fst result = Throw err)
  /\ (forall url resp,
        In url urls -> fetch net (requestUrl net url) options = Ok resp ->
        storable resp = true ->
        cache_match (requestUrl net url) (snd result) = Some resp).
Proof.
  intros Hjson options urls result.
  assert (result = promiseAll net schedule options urls cache) as ->.
  { unfold result. rewrite (cacheUrn_shaped _ _ _ _ derivatives Hjson).
    now rewrite pushAll_flat. }
  pose proof (completionOrder_perm schedule urls) as HP.
  split; [|split].
  - intros Hall. rewrite promiseAll_result, settle_fulfilled; [reflexivity|].
    intros url Hin. apply (Permutation_in _ HP) in Hin.
    destruct (Hall url Hin) as (resp & Hresp & Hst).
    unfold jobError. now rewrite Hresp, Hst.
  - intros (u & Hin & Hfail).
    destruct (settle_first_rejection options
                (completionOrder schedule urls) cache)
      as (u' & e' & Hin' & Hu' & Hs).
    { unfold jobError. destruct Hfail as [[e He]|(resp & Hresp & Hst)].
      - exists u, e. split;
          [now apply (Permutation_in _ (Permutation_sym HP))|].
        now rewrite He.
      - exists u, putRefused. split;
          [now apply (Permutation_in _ (Permutation_sym HP))|].
        now rewrite Hresp, Hst. }
    exists u', e'. split; [now apply (Permutation_in _ HP)|].
    split; [exact Hu'|]. now rewrite promiseAll_result, Hs.
  - intros url resp Hin Hu Hst. rewrite promiseAll_cache, settle_match.
    unfold stored. rewrite Hu, Hst.
    replace (existsb _ _) with true; [reflexivity|].
    symmetry. apply existsb_eqb_In, in_map.
    now apply (Permutation_in _ (Permutation_sym HP)).
Qed.

(** When the file list is not obtained the task is rejected and nothing is
    fetched. *)
Lemma cacheUrn_no_list (schedule : Schedule) (urn token err : string)
    (cache : Cache) :
  fetchJson net ("/api/models/" +++ urn +++ "/files") = Throw err ->
  cacheUrn net schedule urn token cache = (Throw err, cache).
Proof. unfold cacheUrn. now intros ->. Qed.

(** *** Running [cacheUrn] twice *)

Lemma filter_all {A} (f : A -> bool) (l : list A) :
  (forall x, In x l -> f x = true) -> filter f l = l.
Proof.
  induction l as [|a l IH]; intros H; simpl; [reflexivity|].
  rewrite (H a) by now left. f_equal. apply IH. intros x Hx. apply H.
  now right.
Qed.

Lemma filter_none {A} (f : A -> bool) (l : list A) :
  (forall x, In x l -> f x = false) -> filter f l = [].
Proof.
  induction l as [|a l IH]; intros H; simpl; [reflexivity|].
  rewrite (H a) by now left. apply IH. intros x Hx. apply H. now right.
Qed.

Lemma absent_snoc (entries : list (string * Response)) (k : string)
    (r : Response) (entry : string * Response) :
  absent (entries ++ [(k, r)]) entry
  = absent entries entry && negb (String.eqb (fst entry) k).
Proof.
  unfold absent. rewrite map_app, existsb_app. simpl.
  now rewrite orb_false_r, negb_orb.
Qed.

(** The cache after a series of puts: the entries of the other URLs, as
    they were, followed by what the puts leave in an empty cache. *)
Lemma putAll_split (entries : list (string * Response)) :
  forall cache,
  cache_putAll entries cache
  = filter (absent entries) cache ++ cache_putAll entries [].
Proof.
  induction entries as [|[k r] entries IH] using rev_ind; intros cache.
  - simpl. rewrite app_nil_r. symmetry. now apply filter_all.
  - unfold cache_putAll. rewrite !fold_left_app. simpl.
    fold (cache_putAll entries cache). fold (cache_putAll entries []).
    rewrite IH. unfold cache_put, cache_delete.
    rewrite filter_app, <- app_assoc. f_equal.
    clear IH. induction cache as [|e cache IHc]; simpl; [reflexivity|].
    rewrite absent_snoc.
    destruct (absent entries e); simpl; [|exact IHc].
    destruct (String.eqb (fst e) k); simpl; [exact IHc | now f_equal].
Qed.

Lemma putAll_In (entries : list (string * Response)) :
  forall cache entry,
  In entry (cache_putAll entries cache) -> In entry entries \/ In entry cache.
Proof.
  induction entries as [|[k r] entries IH]; intros cache entry; simpl;
    [now right|].
  intros H. apply IH in H as [H|H]; [now left; right|].
  unfold cache_put in H. apply in_app_or in H as [H|[<-|[]]].
  - right. unfold cache_delete in H. now apply filter_In in H.
  - now left; left.
Qed.

Lemma keys_filter_NoDup (f : string * Response -> bool) (cache : Cache) :
  NoDup (cache_keys cache) -> NoDup (cache_keys (filter f cache)).
Proof.
  unfold cache_keys. induction cache as [|e cache IH]; simpl; intros H;
    [constructor|].
  inversion H as [|? ? Hnot Hrest]; subst.
  destruct (f e); simpl; [|now apply IH].
  constructor; [|now apply IH].
  intros Hin. apply Hnot. apply in_map_iff in Hin as (x & Hx & Hin).
  apply filter_In in Hin as [Hin _]. apply in_map_iff. now exists x.
Qed.

(** [cache.put] keeps the keys of the cache distinct. *)
Lemma cache_put_NoDup (url : string) (resp : Response) (cache : Cache) :
  NoDup (cache_keys cache) -> NoDup (cache_keys (cache_put url resp cache)).
Proof.
  intros H. unfold cache_put, cache_keys. rewrite map_app. simpl.
  apply NoDup_app.
  - now apply keys_filter_NoDup.
  - constructor; [intros [] | constructor].
  - intros k Hk [<-|[]]. apply in_map_iff in Hk as ([k' r] & Hk & Hin).
    simpl in Hk. subst k'. apply filter_In in Hin as [_ Hin]. simpl in Hin.
    now rewrite String.eqb_refl in Hin.
Qed.

Lemma putAll_NoDup (entries : list (string * Response)) :
  forall cache,
  NoDup (cache_keys cache) -> NoDup (cache_keys (cache_putAll entries cache)).
Proof.
  induction entries as [|[k r] entries IH]; intros cache H; simpl;
    [exact H|].
  apply IH. now apply cache_put_NoDup.
Qed.

Lemma fulfilled_In (options key : string) (resp : Response)
    (order : list string) :
  In (key, resp) (fulfilled net options order)
  <-> In key (map (requestUrl net) order)
      /\ stored net options key = Some resp.
Proof.
  unfold fulfilled. rewrite in_flat_map, in_map_iff. split.
  - intros (u & Hu & Hin).
    destruct (stored net options (requestUrl net u)) as [r|] eqn:E;
      [|contradiction].
    destruct Hin as [[= <- <-]|[]]. split; [now exists u | exact E].
  - intros [(u & <- & Hin) E]. exists u. split; [exact Hin|]. rewrite E.
    now left.
Qed.

(** What the jobs leave in an empty cache has one entry for each request
    URL whose response was stored, whatever the order. *)
Lemma putAll_fulfilled_In (options : string) (order : list string)
    (entry : string * Response) :
  In entry (cache_putAll (fulfilled net options order) [])
  <-> In entry (fulfilled net options order).
Proof.
  split.
  - intros H. apply putAll_In in H as [H|[]]. exact H.
  - destruct entry as [key resp]. intros H.
    apply fulfilled_In in H as [Hin E]. apply cache_match_In.
    rewrite <- (settle_cache options order [] None), settle_match, E.
    replace (existsb _ _) with true; [reflexivity|].
    symmetry. now apply existsb_eqb_In.
Qed.

Lemma absent_perm (es es' : list (string * Response)) (entry : string * Response) :
  Permutation es es' -> absent es entry = absent es' entry.
Proof.
  intros HP. unfold absent. f_equal. apply existsb_perm.
  now apply Permutation_map.
Qed.

Lemma absent_own (entries : list (string * Response)) (cache : Cache) :
  filter (absent entries) (cache_putAll entries cache)
  = filter (absent entries) cache.
Proof.
  rewrite putAll_split, filter_app.
  rewrite (filter_none _ (cache_putAll entries [])).
  - rewrite app_nil_r. apply filter_all.
    intros e He. now apply filter_In in He.
  - intros e He. apply putAll_In in He as [He|[]].
    unfold absent. apply negb_false_iff, existsb_eqb_In. now apply in_map.
Qed.

(** Running the same jobs again, in any order, replaces each entry they
    put by an equal one. *)
Lemma putAll_again (options : string) (order order' : list string)
    (cache : Cache) :
  Permutation order order' ->
  let once := cache_putAll (fulfilled net options order) cache in
  let twice := cache_putAll (fulfilled net options order') once in
  Permutation twice once /\ (order' = order -> twice = once).
Proof.
  intros HP once twice.
  assert (Permutation (fulfilled net options order)
            (fulfilled net options order')) as HPf
    by (unfold fulfilled; now apply Permutation_flat_map).
  assert (twice = filter (absent (fulfilled net options order)) cache
                  ++ cache_putAll (fulfilled net options order') []) as Htwice.
  { unfold twice. rewrite putAll_split. f_equal.
    rewrite (filter_ext _ _ (fun e => absent_perm _ _ e (Permutation_sym HPf))).
    apply absent_own. }
  split.
  - rewrite Htwice. unfold once. rewrite (putAll_split _ cache).
    apply Permutation_app_head. apply NoDup_Permutation.
    + apply (NoDup_map_inv fst), (putAll_NoDup _ []). constructor.
    + apply (NoDup_map_inv fst), (putAll_NoDup _ []). constructor.
    + intros e. rewrite !putAll_fulfilled_In. split; apply Permutation_in;
        [now symmetry | exact HPf].
  - intros ->. rewrite Htwice. unfold once. now rewrite <- putAll_split.
Qed.

(** C9: a second [cacheUrn] for the same model, with the network
    answering as it did the first time, leaves the cache with the contents
    the first call left: the same entries, the same answer of the cache
    for every URL, whatever the order in which the fetches of either call
    complete; and the same entries in the same order when the fetches
    complete in the same order. *)
Theorem cacheUrn_idempotent (s1 s2 : Schedule) (urn token : string)
    (cache : Cache) :
  let once := snd (cacheUrn net s1 urn token cache) in
  let twice := snd (cacheUrn net s2 urn token once) in
  Permutation twice once
  /\ (forall url, cache_match url twice = cache_match url once)
  /\ (s2 = s1 -> twice = once).
Proof.
  intros once twice. unfold twice, once. rewrite !cacheUrn_cache.
  set (options := "Bearer " +++ token).
  set (fetches := started net urn).
  assert (Permutation (completionOrder s1 fetches) (completionOrder s2 fetches))
    as HP by (now rewrite !completionOrder_perm).
  split; [|split].
  - rewrite !settle_cache. now apply putAll_again.
  - intros url. rewrite !settle_match.
    rewrite (existsb_perm url _ _ (Permutation_map (requestUrl net) HP)).
    destruct (existsb _ _); [|reflexivity].
    now destruct (stored net options url).
  - intros ->. rewrite !settle_cache. now apply putAll_again.
Qed.

End CacheUrnFacts.

Lemma cacheUrn_all_or_nothing_witness :
  Worker.fetchJson Worker.online "/api/models/dXJuOm1vZGVs/files"
  = Ok (Worker.Iterable (map Worker.Shaped Worker.sampleDerivatives))
  /\ fst (Worker.cacheUrn Worker.online [2; 0; 1]%nat "dXJuOm1vZGVs" "token"
            Worker.sampleCache)
     = Ok [ Worker.baseUrl +++ "/manifest/dXJuOm1vZGVs";
            Worker.baseUrl +++ "/derivatives/urn%3Amodel%2Foutput%2F1%2Fm.svf";
            Worker.baseUrl +++ "/derivatives/urn%3Amodel%2Foutput%2F1%2Fa.png" ].
Proof.
  split; [reflexivity|].
  refine (proj1 (cacheUrn_all_or_nothing Worker.online [2; 0; 1]%nat
                   "dXJuOm1vZGVs" "token" Worker.sampleCache
                   Worker.sampleDerivatives eq_refl) _).
  intros url _. eexists. split; reflexivity.
Defined.

(** The claim C2 as it is written, with the failures the specification
    counts (a response with an error status among them), fails: when the
    derivative service answers every fetch with status 404 the task is not
    rejected; it returns the URLs, and the error pages are cached. *)
Lemma cacheUrn_error_status :
  Worker.fetch Worker.notFound (Worker.baseUrl +++ "/manifest/dXJuOm1vZGVs")
    "Bearer token"
  = Ok (Worker.mkResponse 404 [] "Not Found")
  /\ ~ (exists err,
          fst (Worker.cacheUrn Worker.notFound [] "dXJuOm1vZGVs" "token" [])
          = Throw err)
  /\ Worker.cache_match (Worker.baseUrl +++ "/manifest/dXJuOm1vZGVs")
       (snd (Worker.cacheUrn Worker.notFound [] "dXJuOm1vZGVs" "token" []))
     = Some (Worker.mkResponse 404 [] "Not Found").
Proof.
  split; [reflexivity|]. split; [|reflexivity].
  intros [err H]. discriminate H.
Qed.

(** A response of status 206 is fetched but not stored: the task is
    rejected by [cache.put] and the cache has no entry. *)
Example cacheUrn_partial :
  Worker.cacheUrn Worker.partialContent [] "dXJuOm1vZGVs" "token" []
  = (Throw Worker.putRefused, []).
Proof. reflexivity. Qed.

(** When the application server answers with something that is not an
    array, the task is rejected by the loop, after the fetch of the
    manifest has been started: the manifest is cached all the same.  Its
    key is the URL of the request, not the string the URL was built as. *)
Example cacheUrn_not_an_array :
  Worker.cacheUrn Worker.noArray [] "a b" "token" []
  = (Throw "TypeError: derivatives is not iterable",
     [ (Worker.baseUrl +++ "/manifest/a%20b",
        Worker.mkResponse 200 [] (Worker.baseUrl +++ "/manifest/a%20b")) ]).
Proof. reflexivity. Qed.

(** With a file that cannot be fetched the task is rejected, and the URLs
    that could be fetched are cached all the same. *)
Example cacheUrn_flaky :
  Worker.cacheUrn Worker.flaky [2; 0; 1]%nat "dXJuOm1vZGVs" "token" []
  = (Throw "TypeError: Failed to fetch",
     [ (Worker.baseUrl +++ "/derivatives/urn%3Amodel%2Foutput%2F1%2Fm.svf",
        Worker.mkResponse 200 []
          (Worker.baseUrl +++ "/derivatives/urn%3Amodel%2Foutput%2F1%2Fm.svf"));
       (Worker.baseUrl +++ "/manifest/dXJuOm1vZGVs",
        Worker.mkResponse 200 [] (Worker.baseUrl +++ "/manifest/dXJuOm1vZGVs")) ]).
Proof. reflexivity. Qed.

Lemma cacheUrn_idempotent_witness :
  let once :=
    snd (Worker.cacheUrn Worker.online [2; 0; 1]%nat "dXJuOm1vZGVs" "token"
           Worker.sampleCache) in
  snd (Worker.cacheUrn Worker.online [2; 0; 1]%nat "dXJuOm1vZGVs" "token" once)
  = once.
Proof.
  exact (proj2 (proj2 (cacheUrn_idempotent Worker.online [2; 0; 1]%nat
                         [2; 0; 1]%nat "dXJuOm1vZGVs" "token"
                         Worker.sampleCache)) eq_refl).
Defined.

Lemma clearUrn_exact_witness :
  Worker.clearUrn "dXJuOnVua25vd24" Worker.sampleCache
  = (Ok [], Worker.sampleCache).
Proof.
  refine (proj2 (proj2 (proj2 (proj2 (proj2
            (clearUrn_exact "dXJuOnVua25vd24" Worker.sampleCache))))) _).
  intros url Hin Hsub. apply includes_iff in Hsub. simpl in Hin.
  repeat (destruct Hin as [<-|Hin]; [discriminate Hsub|]). contradiction.
Defined.

Example clearUrn_sample :
  Worker.clearUrn "dXJuOm1vZGVs" Worker.sampleCache
  = (Ok [ Worker.baseUrl +++ "/manifest/dXJuOm1vZGVs" ],
     [ ("https://example.com/index.html", Worker.mkResponse 200 [] "<html>");
       (Worker.baseUrl +++ "/manifest/dXJuOm90aGVy", Worker.mkResponse 200 [] "{}") ]).
Proof. reflexivity. Qed.

(** *** messageAsync *)

Section MessageFacts.

Import Worker.

Variable net : Network.

(** C1, as amended: for a message whose operation is [CACHE_URN],
    [CLEAR_URN] or [LIST_CACHES] exactly one reply is posted on the port of
    the event: the URLs with status ok when the task returns, the error
    when it throws. *)
Theorem messageAsync_one_reply (schedule : Schedule) (data : MessageData)
    (st : State) :
  operation data = Str "CACHE_URN" \/ operation data = Str "CLEAR_URN"
  \/ operation data = Str "LIST_CACHES" ->
  exists task,
    (operation data = Str "CACHE_URN" ->
     task = cacheUrn net schedule (toString (data_urn data))
              (toString (access_token data)) (cache st))
    /\ (operation data = Str "CLEAR_URN" ->
        task = clearUrn (toString (data_urn data)) (cache st))
    /\ (operation data = Str "LIST_CACHES" -> task = listCached (cache st))
    /\ port (messageAsync net schedule data st)
       = port st ++ [ match fst task with
                      | Ok urls => ReplyOk urls
                      | Throw err => ReplyError err
                      end ]
    /\ cache (messageAsync net schedule data st) = snd task.
Proof.
  unfold messageAsync. intros [H|[H|H]]; rewrite H;
    match goal with
    | |- context [match ?t with (_, _) => _ end] =>
        exists t; destruct t as [[urls|err] cache']
    end;
    repeat split; try discriminate.
Qed.

(** A message with another operation changes nothing: no reply is posted. *)
Lemma messageAsync_other (schedule : Schedule) (data : MessageData)
    (st : State) :
  operation data <> Str "CACHE_URN" -> operation data <> Str "CLEAR_URN" ->
  operation data <> Str "LIST_CACHES" ->
  messageAsync net schedule data st = st.
Proof.
  unfold messageAsync. intros H1 H2 H3.
  destruct (operation data) as [| |op]; try reflexivity.
  repeat match goal with
         | |- context [match ?s with EmptyString => _ | String _ _ => _ end] =>
             destruct s as [|[[] [] [] [] [] [] [] []] ?]; try reflexivity
         end; congruence.
Qed.

End MessageFacts.

Lemma messageAsync_one_reply_witness :
  Worker.port
    (Worker.messageAsync Worker.flaky [2; 0; 1]%nat
       (Worker.mkMessageData (Str "CACHE_URN") (Str "dXJuOm1vZGVs") Null)
       (Worker.mkState [] []))
  = [ Worker.ReplyError "TypeError: Failed to fetch" ].
Proof.
  destruct (messageAsync_one_reply Worker.flaky [2; 0; 1]%nat
              (Worker.mkMessageData (Str "CACHE_URN") (Str "dXJuOm1vZGVs") Null)
              (Worker.mkState [] []))
    as (task & Htask & _ & _ & Hport & _).
  - left. reflexivity.
  - rewrite Hport, (Htask eq_refl). reflexivity.
Defined.

(** The claim C1 as it is written fails on a message whose operation is
    none of the three: nothing is posted on its port. *)
Lemma messageAsync_unanswered :
  ~ exists reply,
      Worker.port
        (Worker.messageAsync Worker.online []
           (Worker.mkMessageData (Str "PING") Undefined Undefined)
           (Worker.mkState Worker.sampleCache []))
      = [] ++ [reply].
Proof. intros [reply H]. discriminate H. Qed.

(* ================================================================== *)
(** ** Further properties of the model routes *)
(* ================================================================== *)

Section MorePathInfoFacts.

Import Models.

Lemma search_char (c x : ascii) (s : string) :
  search (String c s) (String x "")
  = if Ascii.eqb x c then Some O else option_map S (search s (String x "")).
Proof. simpl. now rewrite andb_true_r. Qed.

Lemma last_slash (s : string) :
  includes s "/" = true ->
  exists dir file, s = dir +++ "/" +++ file /\ includes file "/" = false.
Proof.
  induction s as [|c s IH]; [discriminate|]. intros H.
  destruct (includes s "/") eqn:E.
  - destruct (IH eq_refl) as (dir & file & -> & Hfile).
    now exists (String c dir), file.
  - exists "", s. split; [|exact E]. simpl. f_equal.
    unfold includes in H, E. rewrite search_char in H.
    destruct (Ascii.eqb_spec "/"%char c) as [<-|_]; [reflexivity|].
    now destruct (search s "/").
Qed.

Lemma getPathInfo_shape (encodedURN : Value) (info : PathInfo) :
  getPathInfo encodedURN = Ok info ->
  decodeURIComponent (toString encodedURN) = Ok (urn info)
  /\ basePath info +++ rootFileName info = urn info
  /\ includes (rootFileName info) "/" = false
  /\ (basePath info = "" \/ exists dir, basePath info = dir +++ "/").
Proof.
  intros H.
  assert (exists u, decodeURIComponent (toString encodedURN) = Ok u)
    as [u Hdec].
  { unfold getPathInfo in H.
    destruct (decodeURIComponent (toString encodedURN)) as [u|];
      [now exists u | discriminate]. }
  destruct (includes u "/") eqn:E.
  - destruct (last_slash u E) as (dir & file & -> & Hfile).
    destruct (getPathInfo_split encodedURN dir file Hdec Hfile) as [lp Hinfo].
    rewrite Hinfo in H. injection H as <-. simpl.
    split; [exact Hdec|]. split; [apply append_assoc|].
    split; [exact Hfile|]. right. now exists dir.
  - unfold getPathInfo in H. rewrite Hdec in H. simpl bind in H.
    unfold lastIndexOf in H.
    rewrite (search_none_last _ _ (includes_false_search _ _ E)) in H.
    simpl position in H. simpl (-1 + 1) in H.
    rewrite slice_whole, slice_nothing in H. injection H as <-. simpl.
    split; [exact Hdec|]. split; [reflexivity|]. split; [exact E | now left].
Qed.

(** Whenever [getPathInfo] returns, the base path followed by the root
    file name is the decoded URN, the root file name has no [/], and the
    base path is empty or ends with [/]. *)
Theorem getPathInfo_recompose (encodedURN : Value) (info : PathInfo) :
  getPathInfo encodedURN = Ok info ->
  decodeURIComponent (toString encodedURN) = Ok (urn info)
  /\ basePath info +++ rootFileName info = urn info
  /\ includes (rootFileName info) "/" = false
  /\ (basePath info = "" \/ exists dir, basePath info = dir +++ "/").
Proof. apply getPathInfo_shape. Qed.

Lemma getPathInfo_recompose_witness :
  getPathInfo (Str "dm%2Foutput/1/m.svf")
  = Ok {| urn := "dm/output/1/m.svf"; rootFileName := "m.svf";
          localPath := "1/"; basePath := "dm/output/1/" |}
  /\ "dm/output/1/" +++ "m.svf" = "dm/output/1/m.svf".
Proof.
  split; [reflexivity|].
  exact (proj1 (proj2 (getPathInfo_recompose (Str "dm%2Foutput/1/m.svf")
                         {| urn := "dm/output/1/m.svf"; rootFileName := "m.svf";
                            localPath := "1/"; basePath := "dm/output/1/" |}
                         eq_refl))).
Defined.

(** For a decoded URN made of a first segment, a directory and a file
    name, the local path is the directory without a leading [output/]. *)
Theorem getPathInfo_segments (encodedURN : Value) (bucket dir file : string) :
  decodeURIComponent (toString encodedURN)
  = Ok (bucket +++ "/" +++ dir +++ "/" +++ file) ->
  includes bucket "/" = false ->
  includes file "/" = false ->
  getPathInfo encodedURN
  = Ok {| urn := bucket +++ "/" +++ dir +++ "/" +++ file;
          rootFileName := file;
          localPath := replacePrefix (dir +++ "/") "output/";
          basePath := bucket +++ "/" +++ dir +++ "/" |}.
Proof.
  intros Hdec Hbucket Hfile.
  assert (bucket +++ "/" +++ dir +++ "/" +++ file
          = (bucket +++ "/" +++ dir) +++ "/" +++ file) as Hassoc
    by (now rewrite !append_assoc).
  rewrite Hassoc in Hdec |- *.
  destruct (getPathInfo_split encodedURN _ file Hdec Hfile) as [lp Hinfo].
  rewrite Hinfo. do 2 f_equal.
  - apply (getPathInfo_localPath encodedURN _ bucket (dir +++ "/") Hinfo);
      [|exact Hbucket].
    simpl basePath. now rewrite !append_assoc.
  - now rewrite !append_assoc.
Qed.

Lemma getPathInfo_segments_witness :
  getPathInfo (Str "urn%3Aadsk.objects/output/Resource/3D/model.svf")
  = Ok {| urn := "urn:adsk.objects/output/Resource/3D/model.svf";
          rootFileName := "model.svf";
          localPath := "Resource/3D/";
          basePath := "urn:adsk.objects/output/Resource/3D/" |}.
Proof.
  exact (getPathInfo_segments
           (Str "urn%3Aadsk.objects/output/Resource/3D/model.svf")
           "urn:adsk.objects" "output/Resource/3D" "model.svf"
           eq_refl eq_refl eq_refl).
Defined.

End MorePathInfoFacts.

Section MoreParseFacts.

Import Models.

Lemma emit_error (bs : list N) (k : JsResult string) (e : string) :
  emit bs k = Throw e -> k = Throw e.
Proof. unfold emit. destruct k; simpl; [discriminate | trivial]. Qed.

Lemma unescape_error (n : nat) :
  forall s e, (String.length s <= n)%nat -> unescape s = Throw e -> e = malformed.
Proof.
  induction n as [|n IH]; intros s e Hlen H.
  - destruct s; [discriminate | simpl in Hlen; lia].
  - destruct s as [|c rest]; [discriminate|]. cbn [unescape] in H.
    destruct (Ascii.eqb c "%").
    + destruct rest as [|h [|l rest']]; try (injection H as <-; reflexivity).
      destruct (hexval h), (hexval l); try (injection H as <-; reflexivity).
      destruct (unescape rest') eqn:E; [discriminate|]. injection H as <-.
      apply (IH rest'); [simpl in Hlen; lia | exact E].
    + destruct (unescape rest) eqn:E; [discriminate|]. injection H as <-.
      apply (IH rest); [simpl in Hlen; lia | exact E].
Qed.

Lemma utf8_error (n : nat) :
  forall us e, (List.length us <= n)%nat -> utf8 us = Throw e -> e = malformed.
Proof.
  induction n as [|n IH]; intros us e Hlen H.
  - destruct us; [discriminate | simpl in Hlen; lia].
  - destruct us as [|[c|b] r]; [discriminate| |]; cbn [utf8] in H.
    + destruct (utf8 r) eqn:E; [discriminate|]. injection H as <-.
      apply (IH r); [simpl in Hlen; lia | exact E].
    + simpl in Hlen.
      repeat match type of H with
             | (if ?c then _ else _) = _ => destruct c
             | match ?l with [] => _ | _ :: _ => _ end = _ =>
                 destruct l as [|[?|?] ?]
             | Throw _ = Throw _ => injection H as <-; reflexivity
             | emit _ (utf8 ?r') = Throw _ =>
                 apply emit_error in H; apply (IH r');
                 [simpl in Hlen |- *; lia | exact H]
             end.
Qed.

(** The only error of [decodeURIComponent] is the URIError. *)
Lemma decodeURIComponent_error (s e : string) :
  decodeURIComponent s = Throw e -> e = malformed.
Proof.
  unfold decodeURIComponent. destruct (unescape s) as [us|e'] eqn:E; simpl.
  - now apply (utf8_error (List.length us)).
  - intros [= <-]. now apply (unescape_error (String.length s) s).
Qed.

Lemma collect_throws (ns : list Node) (bad : Node) :
  In bad ns -> allowed bad = true ->
  is_ok (decodeURIComponent (toString (n_urn bad))) = false ->
  forall items, collect ns items = Throw malformed.
Proof.
  intros Hin Hal Hbad.
  induction ns as [|n ns IH]; [contradiction|]. intros items. simpl.
  destruct (allowed n) eqn:E; simpl.
  - unfold describe, getPathInfo.
    destruct (decodeURIComponent (toString (n_urn n))) as [u|e] eqn:Hd; simpl.
    + destruct Hin as [->|Hin]; [now rewrite Hd in Hbad | now apply IH].
    + now rewrite (decodeURIComponent_error _ _ Hd).
  - destruct Hin as [->|Hin]; [congruence | now apply IH].
Qed.

(** One allowed node, at any depth, whose URN is not a well-formed
    percent-encoding makes [parseManifest] throw the URIError: there is no
    partial list. *)
Theorem parseManifest_throws (manifest : Manifest) (bad : Node) :
  In bad (forest (derivatives manifest)) ->
  allowed bad = true ->
  is_ok (decodeURIComponent (toString (n_urn bad))) = false ->
  parseManifest manifest = Throw "URIError: URI malformed".
Proof.
  intros Hin Hal Hbad. rewrite parseManifest_collect.
  now apply (collect_throws _ bad).
Qed.

Lemma parseManifest_throws_witness :
  parseManifest
    {| derivatives := Some
         [ mkNode (Str "viewable") (Str "g1") Undefined Undefined
             (Some [ mkNode (Str "thumbnail") Undefined Undefined
                       (Str "dm/output/preview.png") None;
                     mkNode (Str "pdf") Undefined Undefined
                       (Str "dm/output/%E0%80%80.pdf") None ]) ] |}
  = Throw "URIError: URI malformed".
Proof.
  apply (parseManifest_throws _
           (mkNode (Str "pdf") Undefined Undefined
              (Str "dm/output/%E0%80%80.pdf") None)).
  - simpl. right. right. left. reflexivity.
  - reflexivity.
  - reflexivity.
Defined.

End MoreParseFacts.

Section MoreEnumeratorFacts.

Import Models.

Ltac split_literal :=
  repeat first
    [ reflexivity
    | match goal with
      | |- context [match ?s with EmptyString => _ | String _ _ => _ end] =>
          is_var s; destruct s as [|[? ? ? ? ? ? ? ?] ?]
      | |- context [if ?b then _ else _] => is_var b; destruct b
      end ].

Lemma mime_switch {A} (svf f2d db other : A) (m : Value) :
  match m with
  | Str "application/autodesk-svf" => svf
  | Str "application/autodesk-f2d" => f2d
  | Str "application/autodesk-db" => db
  | _ => other
  end
  = match m with
    | Str s =>
        if String.eqb s "application/autodesk-svf" then svf
        else if String.eqb s "application/autodesk-f2d" then f2d
        else if String.eqb s "application/autodesk-db" then db
        else other
    | _ => other
    end.
Proof.
  destruct m as [| |s]; [reflexivity | reflexivity |].
  split_literal.
Qed.

Variable service : Service.

Lemma enumerateFiles_switch (it : Item) (token : string) :
  enumerateFiles service it token
  = match mime it with
    | Str s =>
        if String.eqb s "application/autodesk-svf"
        then getDerivativesSVF service (urn (path it)) token
        else if String.eqb s "application/autodesk-f2d"
        then getDerivativesF2D service it token
        else if String.eqb s "application/autodesk-db"
        then ret [ "objects_attrs.json.gz"; "objects_vals.json.gz";
                   "objects_offs.json.gz"; "objects_ids.json.gz";
                   "objects_avs.json.gz"; rootFileName (path it) ]
        else ret [ rootFileName (path it) ]
    | _ => ret [ rootFileName (path it) ]
    end.
Proof. unfold enumerateFiles. apply mime_switch. Qed.

Lemma requestOf_switch (it : Item) :
  Routes.requestOf it
  = match mime it with
    | Str s =>
        if String.eqb s "application/autodesk-svf"
        then [ BaseUrl +++ "/derivativeservice/v2/derivatives/"
                 +++ encodeURIComponent (urn (path it)) ]
        else if String.eqb s "application/autodesk-f2d"
        then [ BaseUrl +++ "/derivativeservice/v2/derivatives/"
                 +++ encodeURIComponent
                       (basePath (path it) +++ "manifest.json.gz") ]
        else []
    | _ => []
    end.
Proof.
  unfold Routes.requestOf. rewrite mime_switch.
  destruct (mime it) as [| |s]; try reflexivity.
  now repeat destruct (String.eqb s _).
Qed.

(** For an item of any other mime, a missing mime included, the files are
    the root file name alone and nothing is requested. *)
Theorem enumerateFiles_other (it : Item) (token : string) (log : list string) :
  mime it <> Str "application/autodesk-svf" ->
  mime it <> Str "application/autodesk-f2d" ->
  mime it <> Str "application/autodesk-db" ->
  enumerateFiles service it token log = (Ok [ rootFileName (path it) ], log).
Proof.
  intros H1 H2 H3. rewrite enumerateFiles_switch.
  destruct (mime it) as [| |s]; try reflexivity.
  destruct (String.eqb_spec s "application/autodesk-svf") as [->|_];
    [congruence|].
  destruct (String.eqb_spec s "application/autodesk-f2d") as [->|_];
    [congruence|].
  destruct (String.eqb_spec s "application/autodesk-db") as [->|_];
    [congruence | reflexivity].
Qed.

Lemma enumerateFiles_asks (it : Item) (token : string) (log : list string) :
  snd (enumerateFiles service it token log) = log ++ Routes.requestOf it.
Proof.
  rewrite enumerateFiles_switch, requestOf_switch.
  destruct (mime it) as [| |s]; try (simpl; now rewrite app_nil_r).
  destruct (String.eqb s "application/autodesk-svf").
  { unfold getDerivativesSVF, await, getDerivative, lift.
    now destruct (service _ _). }
  destruct (String.eqb s "application/autodesk-f2d").
  { unfold getDerivativesF2D, await, getDerivative, lift.
    now destruct (service _ _). }
  destruct (String.eqb s "application/autodesk-db"); simpl;
    now rewrite app_nil_r.
Qed.

(** Whatever the service answers, the enumeration of an item requests the
    archive of an SVF item, the [manifest.json.gz] next to an F2D item,
    and nothing for any other item. *)
Theorem enumerateFiles_requests (it : Item) (token : string)
    (log : list string) :
  snd (enumerateFiles service it token log) = log ++ Routes.requestOf it.
Proof. apply enumerateFiles_asks. Qed.

(** For an F2D item whose [manifest.json.gz] is fetched, gunzipped and
    parsed, the files are the URIs of [assets] without those that contain
    [embed:/], followed by [manifest.json.gz]; without [assets] the list
    is empty, [manifest.json.gz] not included. *)
Theorem enumerateFiles_f2d (it : Item) (token : string) (log : list string)
    (manifest : AssetManifest) :
  mime it = Str "application/autodesk-f2d" ->
  service (BaseUrl +++ "/derivativeservice/v2/derivatives/"
             +++ encodeURIComponent (basePath (path it) +++ "manifest.json.gz"))
    ("Bearer " +++ token)
  = Ok (Gzip (Json manifest)) ->
  fst (enumerateFiles service it token log)
  = Ok (match assets manifest with
        | Some l =>
            filter (fun uri => negb (includes uri "embed:/")) (map URI l)
            ++ [ "manifest.json.gz" ]
        | None => []
        end).
Proof.
  intros Hmime Hget. rewrite enumerateFiles_switch, Hmime. simpl.
  unfold getDerivativesF2D, await, getDerivative, lift. rewrite Hget. simpl.
  destruct (assets manifest) as [l|]; simpl; [|reflexivity].
  do 2 f_equal. apply filter_ext. intros uri. apply notEmbedded_includes.
Qed.

(** An SVF item gets a list of files only from an archive that holds a
    [manifest.json] that parses: a failed download, a body that is not an
    archive, an archive without [manifest.json] or with one that is not
    JSON all end in an error, none in an empty list. *)
Theorem enumerateFiles_svf_only_if (it : Item) (token : string)
    (log names : list string) :
  mime it = Str "application/autodesk-svf" ->
  fst (enumerateFiles service it token log) = Ok names ->
  exists files manifest,
    service (BaseUrl +++ "/derivativeservice/v2/derivatives/"
               +++ encodeURIComponent (urn (path it))) ("Bearer " +++ token)
    = Ok (Zip files)
    /\ asText files "manifest.json" = Ok (Json manifest).
Proof.
  intros Hmime. rewrite enumerateFiles_switch, Hmime. simpl.
  unfold getDerivativesSVF, await, getDerivative, lift.
  destruct (service _ _) as [[files|c|raw]|e] eqn:Hs; simpl;
    try discriminate.
  destruct (asText files "manifest.json") as [[m|raw]|e] eqn:Ht; simpl;
    try discriminate.
  intros _. exists files, m. split; [reflexivity | exact Ht].
Qed.

(** The error of a failed download is the error of the enumeration. *)
Theorem enumerateFiles_download_error (it : Item) (token err : string)
    (log : list string) :
  Routes.requestOf it <> [] ->
  (forall url, In url (Routes.requestOf it) ->
               service url ("Bearer " +++ token) = Throw err) ->
  fst (enumerateFiles service it token log) = Throw err.
Proof.
  rewrite enumerateFiles_switch, requestOf_switch.
  destruct (mime it) as [| |s]; try congruence.
  destruct (String.eqb s "application/autodesk-svf").
  { intros _ H. unfold getDerivativesSVF, await, getDerivative, lift.
    now rewrite (H _ (or_introl eq_refl)). }
  destruct (String.eqb s "application/autodesk-f2d").
  { intros _ H. unfold getDerivativesF2D, await, getDerivative, lift.
    now rewrite (H _ (or_introl eq_refl)). }
  congruence.
Qed.

End MoreEnumeratorFacts.

Lemma enumerateFiles_other_witness :
  Models.enumerateFiles Models.offline
    (Models.mkItem (Str "g6") Undefined
       (Models.mkPathInfo "dm/output/preview.png" "preview.png" ""
          "dm/output/")) "token" []
  = (Ok [ "preview.png" ], []).
Proof.
  apply enumerateFiles_other; discriminate.
Defined.

Lemma enumerateFiles_f2d_witness :
  fst (Models.enumerateFiles Routes.f2dService Routes.f2dItem "token" [])
  = Ok [ "primaryGraphics.f2d"; "manifest.json.gz" ].
Proof.
  exact (enumerateFiles_f2d Routes.f2dService Routes.f2dItem "token" []
           {| Models.assets := Some [ Models.mkAsset "primaryGraphics.f2d";
                                      Models.mkAsset "embed:/fonts" ] |}
           eq_refl eq_refl).
Defined.

Lemma enumerateFiles_svf_only_if_witness :
  exists files manifest,
    Models.svfService
      (Models.BaseUrl +++ "/derivativeservice/v2/derivatives/"
         +++ encodeURIComponent "dm/output/1/m.svf") ("Bearer " +++ "token")
    = Ok (Models.Zip files)
    /\ Models.asText files "manifest.json" = Ok (Models.Json manifest).
Proof.
  exact (enumerateFiles_svf_only_if Models.svfService Models.svfItem "token"
           [] [ "a.png" ] eq_refl eq_refl).
Defined.

Lemma enumerateFiles_download_error_witness :
  fst (Models.enumerateFiles Models.offline Models.svfItem "token" [])
  = Throw "FetchError: request failed".
Proof.
  apply enumerateFiles_download_error.
  - discriminate.
  - intros url _. reflexivity.
Defined.

(* ================================================================== *)
(** ** Properties of the route and of its access token *)
(* ================================================================== *)

Section TokenFacts.

Import Routes.

(** A token that is returned is the stored one, and then the stored
    expiry is not less than the time of the call, as doubles compare, or
    the one just granted, and then it is stored with the expiry counted
    from the time the grant arrived, by the sum and the product of
    doubles. *)
Theorem getAccessToken_fresh (grant : JsResult Grant) (now later : Number)
    (credentials credentials' : option Credentials) (token : string) :
  getAccessToken grant now later credentials = (Ok token, credentials') ->
  (exists c, credentials = Some c /\ credentials' = credentials
             /\ token = access_token c
             /\ PrimFloat.ltb (expires_at c) now = false)
  \/ (exists g, grant = Ok g /\ token = granted_token g
                /\ credentials'
                   = Some {| access_token := granted_token g;
                             expires_in := granted_expires_in g;
                             expires_at :=
                               PrimFloat.add later
                                 (PrimFloat.mul (granted_expires_in g)
                                    1000%float) |}
                /\ (credentials = None
                    \/ exists c, credentials = Some c
                                 /\ PrimFloat.ltb (expires_at c) now = true)).
Proof.
  unfold getAccessToken. destruct credentials as [c|].
  - destruct (PrimFloat.ltb (expires_at c) now) eqn:Hlt.
    + destruct grant as [g|e]; [|discriminate]. intros [= <- <-].
      right. exists g. repeat split. right. now exists c.
    + intros [= <- <-]. left. now exists c.
  - destruct grant as [g|e]; [|discriminate]. intros [= <- <-].
    right. exists g. repeat split. now left.
Qed.

Lemma getAccessToken_fresh_witness :
  exists g,
    Ok (mkGrant "t1" 9007199254740%float) = Ok g
    /\ Some (mkCredentials "t1" 9007199254740%float 9008899254740000%float)
       = Some {| access_token := granted_token g;
                 expires_in := granted_expires_in g;
                 expires_at :=
                   PrimFloat.add 1700000000001%float
                     (PrimFloat.mul (granted_expires_in g) 1000%float) |}.
Proof.
  destruct (getAccessToken_fresh (Ok (mkGrant "t1" 9007199254740%float))
              1700000000000%float 1700000000001%float
              (Some (mkCredentials "t0" 3600%float 4600000%float))
              (Some (mkCredentials "t1" 9007199254740%float
                       9008899254740000%float))
              "t1" eq_refl)
    as [(c & Hc & Hsame & _)|(g & Hg & _ & Hcreds & _)].
  - discriminate Hsame.
  - now exists g.
Defined.

(** The sum is that of doubles: an expiry too large to be held exactly is
    rounded, here to an even number of milliseconds. *)
Example getAccessToken_rounded :
  getAccessToken (Ok (mkGrant "t1" 9007199254740%float))
    1700000000000%float 1700000000001%float None
  = (Ok "t1",
     Some (mkCredentials "t1" 9007199254740%float 9008899254740000%float)).
Proof. reflexivity. Qed.

(** A grant without [expires_in] gives an expiry that is not a number,
    and the token is then kept for ever: no later call asks for a grant. *)
Example getAccessToken_no_expiry (grant : JsResult Grant) (now later : Number) :
  getAccessToken (Ok (mkGrant "t0" PrimFloat.nan))
    0%float 1700000000000%float None
  = (Ok "t0", Some (mkCredentials "t0" PrimFloat.nan PrimFloat.nan))
  /\ getAccessToken grant now later
       (Some (mkCredentials "t0" PrimFloat.nan PrimFloat.nan))
     = (Ok "t0", Some (mkCredentials "t0" PrimFloat.nan PrimFloat.nan)).
Proof.
  split; [reflexivity|]. unfold getAccessToken. cbn [expires_at].
  rewrite FloatAxioms.ltb_spec. reflexivity.
Qed.

(** After a call that returned a token, every call made at a time the
    stored expiry is not less than returns the same token without asking
    for a grant, and leaves the credentials as they are. *)
Theorem getAccessToken_reuse (grant : JsResult Grant) (now later : Number)
    (credentials credentials' : option Credentials) (token : string) :
  getAccessToken grant now later credentials = (Ok token, credentials') ->
  exists c,
    credentials' = Some c /\ access_token c = token
    /\ forall grant' now' later',
         PrimFloat.ltb (expires_at c) now' = false ->
         getAccessToken grant' now' later' credentials'
         = (Ok token, credentials').
Proof.
  intros H.
  assert (exists c, credentials' = Some c /\ access_token c = token)
    as (c & -> & <-).
  { unfold getAccessToken in H. destruct credentials as [c|].
    - destruct (PrimFloat.ltb (expires_at c) now).
      + destruct grant as [g|e]; [|discriminate]. injection H as <- <-.
        eexists. split; reflexivity.
      + injection H as <- <-. now exists c.
    - destruct grant as [g|e]; [|discriminate]. injection H as <- <-.
      eexists. split; reflexivity. }
  exists c. repeat split. intros grant' now' later' Hle.
  unfold getAccessToken. now rewrite Hle.
Qed.

Lemma getAccessToken_reuse_witness :
  getAccessToken (Throw "offline") 3600000%float 3600001%float
    (Some (mkCredentials "t0" 3600%float 3601000%float))
  = (Ok "t0", Some (mkCredentials "t0" 3600%float 3601000%float)).
Proof.
  destruct (getAccessToken_reuse (Ok (mkGrant "t0" 3600%float)) 0%float
              1000%float None
              (Some (mkCredentials "t0" 3600%float 3601000%float)) "t0"
              eq_refl)
    as (c & Hc & _ & Hnext).
  injection Hc as <-. apply Hnext. reflexivity.
Defined.

(** A grant that fails when the credentials are missing or expired is the
    error of the call, and the credentials stay as they were. *)
Lemma getAccessToken_failure (err : string) (now later : Number)
    (credentials : option Credentials) :
  (forall c, credentials = Some c -> PrimFloat.ltb (expires_at c) now = true) ->
  getAccessToken (Throw err) now later credentials = (Throw err, credentials).
Proof.
  intros H. unfold getAccessToken. destruct credentials as [c|];
    [|reflexivity].
  now rewrite (H c eq_refl).
Qed.

End TokenFacts.

Section RouteFacts.

Import Models Routes.

Lemma firstRejection_none {A} (order : list (JsResult A)) :
  firstRejection order = None <-> forall p, In p order -> is_ok p = true.
Proof.
  induction order as [|[a|e] order IH]; simpl.
  - split; [intros _ p [] | reflexivity].
  - rewrite IH. split.
    + intros H p [<-|Hp]; [reflexivity | now apply H].
    + intros H p Hp. apply H. now right.
  - split; [discriminate|]. intros H. discriminate (H _ (or_introl eq_refl)).
Qed.

Lemma firstRejection_some {A} (order : list (JsResult A)) (err : string) :
  firstRejection order = Some err -> In (Throw err) order.
Proof.
  induction order as [|[a|e] order IH]; simpl; [discriminate| |].
  - intros H. right. now apply IH.
  - intros [= ->]. now left.
Qed.

Lemma fulfilledValues_map {A} (promises : list (JsResult A)) :
  (forall p, In p promises -> is_ok p = true) ->
  map Ok (fulfilledValues promises) = promises.
Proof.
  induction promises as [|[a|e] promises IH]; intros H; simpl.
  - reflexivity.
  - f_equal. apply IH. intros p Hp. apply H. now right.
  - discriminate (H _ (or_introl eq_refl)).
Qed.

(** [Promise.all] is fulfilled with the values, in the order of the array,
    exactly when no promise is rejected; otherwise it is rejected with the
    error of one of the rejected promises. *)
Lemma promiseAll_spec {A} (schedule : Worker.Schedule)
    (promises : list (JsResult A)) :
  match promiseAll schedule promises with
  | Ok values => map Ok values = promises
  | Throw err => In (Throw err) promises
  end.
Proof.
  unfold promiseAll.
  pose proof (completionOrder_perm schedule promises) as HP.
  destruct (firstRejection (Worker.completionOrder schedule promises))
    as [err|] eqn:E.
  - apply firstRejection_some in E. now apply (Permutation_in _ HP).
  - apply fulfilledValues_map. intros p Hp.
    apply (proj1 (firstRejection_none _) E).
    now apply (Permutation_in _ (Permutation_sym HP)).
Qed.

(** The outcome of an enumeration does not depend on what was requested
    before. *)
Lemma enumerateFiles_log (service : Service) (it : Item) (token : string)
    (log : list string) :
  fst (enumerateFiles service it token log)
  = fst (enumerateFiles service it token []).
Proof.
  rewrite !enumerateFiles_switch. destruct (mime it) as [| |s];
    try reflexivity.
  destruct (String.eqb s "application/autodesk-svf").
  { unfold getDerivativesSVF, await, getDerivative, lift.
    now destruct (service _ _). }
  destruct (String.eqb s "application/autodesk-f2d").
  { unfold getDerivativesF2D, await, getDerivative, lift.
    now destruct (service _ _). }
  now destruct (String.eqb s "application/autodesk-db").
Qed.

Lemma withFiles_spec (service : Service) (token : string) (it : Item)
    (log : list string) :
  withFiles service token it log
  = (entryOf service token it, log ++ requestOf it).
Proof.
  unfold withFiles, await, entryOf.
  rewrite <- (enumerateFiles_log service it token log).
  rewrite <- (enumerateFiles_asks service it token log).
  now destruct (enumerateFiles service it token log) as [[fs|e] log'].
Qed.

Lemma mapAsync_spec (service : Service) (token : string) (items : list Item) :
  forall log,
  mapAsync service token items log
  = (map (entryOf service token) items, log ++ flat_map requestOf items).
Proof.
  induction items as [|it items IH]; intros log; simpl.
  - now rewrite app_nil_r.
  - rewrite withFiles_spec, IH. now rewrite app_assoc.
Qed.


(** The state of the server after the token has been obtained. *)
Lemma modelFiles_run (up : Upstream) (schedule : Worker.Schedule)
    (now later : Number) (urn token : string) (server : Server)
    (creds : option Credentials) (manifest : Manifest) (items : list Item) :
  getAccessToken (grant up) now later (credentials server) = (Ok token, creds) ->
  getManifest (designData up) urn token = Ok manifest ->
  parseManifest manifest = Ok items ->
  modelFiles up schedule now later urn server
  = (promiseAll schedule (map (entryOf (service up) token) items),
     {| credentials := creds;
        requested := requested server ++ flat_map requestOf items |}).
Proof.
  intros Htoken Hmanifest Hitems. unfold modelFiles.
  rewrite Htoken, Hmanifest. simpl bind. rewrite Hitems.
  now rewrite mapAsync_spec.
Qed.

(** When the items of the manifest are obtained, the route answers with
    one entry per item, in the order of the items, each with the files of
    its enumeration, provided every enumeration succeeds; if one fails the
    route passes the error of a failed enumeration to [next] and answers
    with no entry at all.  This holds for every order in which the
    enumerations complete. *)
Theorem modelFiles_all_or_nothing (up : Upstream) (schedule : Worker.Schedule)
    (now later : Number) (urn token : string) (server : Server)
    (creds : option Credentials) (manifest : Manifest) (items : list Item) :
  getAccessToken (grant up) now later (credentials server) = (Ok token, creds) ->
  getManifest (designData up) urn token = Ok manifest ->
  parseManifest manifest = Ok items ->
  match fst (modelFiles up schedule now later urn server) with
  | Ok entries =>
      map item entries = items
      /\ forall entry, In entry entries ->
           fst (enumerateFiles (service up) (item entry) token []) 
           = Ok (files entry)
  | Throw err =>
      exists it, In it items
                 /\ fst (enumerateFiles (service up) it token []) = Throw err
  end.
Proof.
  intros Htoken Hmanifest Hitems.
  rewrite (modelFiles_run up schedule now later urn token server creds
             manifest items Htoken Hmanifest Hitems). simpl fst.
  pose proof (promiseAll_spec schedule
                (map (entryOf (service up) token) items)) as H.
  destruct (promiseAll schedule _) as [entries|err].
  - assert (forall (es : list Entry) (its : list Item),
              map Ok es = map (entryOf (service up) token) its ->
              map item es = its
              /\ forall e, In e es ->
                   fst (enumerateFiles (service up) (item e) token [])
                   = Ok (files e)) as Hgen.
    { induction es as [|e es IH]; intros [|it its] Heq; try discriminate.
      - split; [reflexivity | intros e []].
      - simpl in Heq. injection Heq as He Hes.
        destruct (IH its Hes) as [Hmap Hfiles].
        unfold entryOf in He.
        destruct (fst (enumerateFiles (service up) it token [])) as [fs|]
          eqn:E; [|discriminate].
        simpl in He. injection He as ->. simpl. split; [now f_equal|].
        intros e' [<-|He']; [exact E | now apply Hfiles]. }
    now apply Hgen.
  - apply in_map_iff in H as (it & Hit & Hin). exists it. split; [exact Hin|].
    unfold entryOf in Hit.
    destruct (fst (enumerateFiles (service up) it token [])) as [fs|e];
      [discriminate | simpl in Hit; now injection Hit as ->].
Qed.

Lemma modelFiles_all_or_nothing_witness :
  exists entries,
    fst (modelFiles sampleUpstream [1%nat] 0%float 1000%float "dXJuOm1vZGVs"
           (mkServer None []))
    = Ok entries
    /\ map item entries
       = [ mkItem (Str "g2") (Str "application/autodesk-svf")
             (mkPathInfo "urn:adsk.viewing:fs.file:dm/output/1/m.svf" "m.svf"
                "1/" "urn:adsk.viewing:fs.file:dm/output/1/");
           mkItem (Str "g3") (Str "image/png")
             (mkPathInfo "urn:adsk.viewing:fs.file:dm/output/preview.png"
                "preview.png" "" "urn:adsk.viewing:fs.file:dm/output/") ].
Proof.
  pose proof (modelFiles_all_or_nothing sampleUpstream [1%nat] 0%float
                1000%float "dXJuOm1vZGVs" "t0" (mkServer None []) _ nestedManifest _
                eq_refl eq_refl eq_refl) as H.
  destruct (fst (modelFiles sampleUpstream [1%nat] 0%float 1000%float
                   "dXJuOm1vZGVs" (mkServer None []))) as [entries|err] eqn:E.
  - exists entries. split; [reflexivity | exact (proj1 H)].
  - discriminate E.
Defined.

(** Whatever the enumerations answer and in whatever order they complete,
    the route requests from the derivative service the archive of each SVF
    item and the [manifest.json.gz] of each F2D item, in the order of the
    items, and nothing else; the failure of one request does not keep the
    later ones from being made. *)
Theorem modelFiles_requests (up : Upstream) (schedule : Worker.Schedule)
    (now later : Number) (urn token : string) (server : Server)
    (creds : option Credentials) (manifest : Manifest) (items : list Item) :
  getAccessToken (grant up) now later (credentials server) = (Ok token, creds) ->
  getManifest (designData up) urn token = Ok manifest ->
  parseManifest manifest = Ok items ->
  requested (snd (modelFiles up schedule now later urn server))
  = requested server ++ flat_map requestOf items.
Proof.
  intros Htoken Hmanifest Hitems.
  now rewrite (modelFiles_run up schedule now later urn token server creds
                 manifest items Htoken Hmanifest Hitems).
Qed.

Lemma modelFiles_requests_witness :
  requested (snd (modelFiles
                    (mkUpstream (Ok (mkGrant "t0" 3600%float))
                       (fun _ _ => Ok nestedManifest) offline)
                    [] 0%float 1000%float "dXJuOm1vZGVs" (mkServer None [])))
  = [ BaseUrl +++ "/derivativeservice/v2/derivatives/"
        +++ "urn%3Aadsk.viewing%3Afs.file%3Adm%2Foutput%2F1%2Fm.svf" ].
Proof.
  exact (modelFiles_requests
           (mkUpstream (Ok (mkGrant "t0" 3600%float))
              (fun _ _ => Ok nestedManifest) offline)
           [] 0%float 1000%float "dXJuOm1vZGVs" "t0" (mkServer None []) _
           nestedManifest _ eq_refl eq_refl eq_refl).
Defined.

(** When the token, the manifest or its parsing fails, the route passes
    the error to [next] and requests nothing from the derivative service. *)
Theorem modelFiles_early_failure (up : Upstream) (schedule : Worker.Schedule)
    (now later : Number) (urn err : string) (server : Server) :
  (fst (getAccessToken (grant up) now later (credentials server)) = Throw err
   \/ exists token manifest,
        fst (getAccessToken (grant up) now later (credentials server))
        = Ok token
        /\ (getManifest (designData up) urn token = Throw err
            \/ getManifest (designData up) urn token = Ok manifest
               /\ parseManifest manifest = Throw err)) ->
  fst (modelFiles up schedule now later urn server) = Throw err
  /\ requested (snd (modelFiles up schedule now later urn server))
     = requested server.
Proof.
  unfold modelFiles.
  destruct (getAccessToken (grant up) now later (credentials server))
    as [[token|e] creds]; simpl.
  - intros [H|(token' & manifest & [= <-] & [H|[H1 H2]])]; [discriminate| |].
    + rewrite H. now split.
    + rewrite H1. simpl. rewrite H2. now split.
  - intros [[= ->]|(token' & manifest & H & _)]; [now split | discriminate].
Qed.

Lemma modelFiles_early_failure_witness :
  fst (modelFiles
         (mkUpstream (Ok (mkGrant "t0" 3600%float)) (fun _ _ => Ok malformedManifest)
            svfService)
         [] 0%float 1000%float "dXJuOm1vZGVs" (mkServer None []))
  = Throw "URIError: URI malformed"
  /\ requested
       (snd (modelFiles
               (mkUpstream (Ok (mkGrant "t0" 3600%float))
                  (fun _ _ => Ok malformedManifest) svfService)
               [] 0%float 1000%float "dXJuOm1vZGVs" (mkServer None [])))
     = [].
Proof.
  apply (modelFiles_early_failure
           (mkUpstream (Ok (mkGrant "t0" 3600%float))
              (fun _ _ => Ok malformedManifest) svfService)
           [] 0%float 1000%float "dXJuOm1vZGVs" "URIError: URI malformed"
           (mkServer None [])).
  right. exists "t0", malformedManifest. split; [reflexivity|].
  right. split; reflexivity.
Defined.

End RouteFacts.

(* ================================================================== *)
(** ** Further properties of the tasks of the worker *)
(* ================================================================== *)

Section MoreTaskFacts.

Import Worker.

Variable net : Network.

Lemma cache_match_key (url : string) (resp : Response) (cache : Cache) :
  cache_match url cache = Some resp -> In url (cache_keys cache).
Proof.
  intros H. apply cache_match_In in H. unfold cache_keys.
  apply in_map_iff. now exists (url, resp).
Qed.

(** A job started stays started whatever the loops do next. *)
Lemma pushElements_keeps (elements : list Element) :
  forall fetches url,
  In url fetches -> In url (fst (pushElements fetches elements)).
Proof.
  induction elements as [|[d|u|] elements IH]; intros fetches url H;
    cbn [pushElements fst]; try exact H.
  - apply IH. rewrite pushAll_flat. apply in_or_app. now left.
  - apply in_or_app. now left.
Qed.

(** When [cacheUrn] returns, it returns the jobs it started, the fetch of
    the manifest among them, and none of them was rejected. *)
Lemma cacheUrn_returned (schedule : Schedule) (urn token : string)
    (cache : Cache) (urls : list string) :
  fst (cacheUrn net schedule urn token cache) = Ok urls ->
  urls = started net urn
  /\ In (baseUrl +++ "/manifest/" +++ urn) urls
  /\ fst (settle net ("Bearer " +++ token)
            (completionOrder schedule (started net urn)) cache None) = None.
Proof.
  unfold cacheUrn, started.
  destruct (fetchJson net ("/api/models/" +++ urn +++ "/files"))
    as [json|err]; [|discriminate].
  cbv zeta.
  assert (In (baseUrl +++ "/manifest/" +++ urn)
            (fst (loops [baseUrl +++ "/manifest/" +++ urn] json))) as Hm.
  { destruct json as [elements|]; simpl; [|now left].
    apply pushElements_keeps. now left. }
  destruct (loops [baseUrl +++ "/manifest/" +++ urn] json)
    as [fetches [err|]]; [discriminate|].
  rewrite promiseAll_result. simpl fst in *.
  destruct (fst (settle net _ _ cache None)) as [err|]; [discriminate|].
  intros [= <-]. now repeat split.
Qed.

Lemma cacheUrn_returned_keys (schedule : Schedule) (urn token : string)
    (cache : Cache) (urls : list string) :
  fst (cacheUrn net schedule urn token cache) = Ok urls ->
  In (baseUrl +++ "/manifest/" +++ urn) urls
  /\ forall url, In url urls ->
       In (requestUrl net url)
         (cache_keys (snd (cacheUrn net schedule urn token cache))).
Proof.
  intros H. destruct (cacheUrn_returned schedule urn token cache urls H)
    as (-> & Hm & Hs).
  split; [exact Hm|]. intros url Hin. rewrite cacheUrn_cache.
  pose proof (completionOrder_perm schedule (started net urn)) as HP.
  apply (Permutation_in _ (Permutation_sym HP)) in Hin.
  pose proof (settle_none net _ _ _ Hs url Hin) as Hjob.
  destruct (stored_or_error net ("Bearer " +++ token) (requestUrl net url))
    as [(resp & Hst & _)|(err & _ & Herr)]; [|congruence].
  apply (cache_match_key _ resp). rewrite settle_match, Hst.
  replace (existsb _ _) with true; [reflexivity|].
  symmetry. now apply existsb_eqb_In, in_map.
Qed.

(** An entry of the cache changes in [cacheUrn] only if its URL is the URL
    of the request of a job that was started and that stored a response:
    every other entry answers as before, and so does the entry of a job
    that was rejected.  Every job started stores its response, also when
    the task is rejected, be it by the loops after the job was started.
    Nothing is started when the list of files is not obtained; the fetch
    of the manifest alone is, when the list is not an array. *)
Theorem cacheUrn_frame (schedule : Schedule) (urn token : string)
    (cache : Cache) :
  (forall key,
     (In key (map (requestUrl net) (started net urn)) ->
      stored net ("Bearer " +++ token) key = None) ->
     cache_match key (snd (cacheUrn net schedule urn token cache))
     = cache_match key cache)
  /\ (forall url resp,
        In url (started net urn) ->
        stored net ("Bearer " +++ token) (requestUrl net url) = Some resp ->
        cache_match (requestUrl net url)
          (snd (cacheUrn net schedule urn token cache)) = Some resp)
  /\ (forall err,
        fetchJson net ("/api/models/" +++ urn +++ "/files") = Throw err ->
        started net urn = []
        /\ cacheUrn net schedule urn token cache = (Throw err, cache))
  /\ (fetchJson net ("/api/models/" +++ urn +++ "/files") = Ok NotIterable ->
      started net urn = [ baseUrl +++ "/manifest/" +++ urn ]
      /\ exists err, fst (cacheUrn net schedule urn token cache) = Throw err).
Proof.
  pose proof (completionOrder_perm schedule (started net urn)) as HP.
  split; [|split; [|split]].
  - intros key H. rewrite cacheUrn_cache, settle_match.
    destruct (existsb _ _) eqn:Ex; [|reflexivity].
    apply existsb_eqb_In in Ex.
    rewrite H; [reflexivity|].
    apply in_map_iff in Ex as (u & <- & Hu). apply in_map.
    now apply (Permutation_in _ HP).
  - intros url resp Hin Hst. rewrite cacheUrn_cache, settle_match, Hst.
    replace (existsb _ _) with true; [reflexivity|].
    symmetry. apply existsb_eqb_In, in_map.
    now apply (Permutation_in _ (Permutation_sym HP)).
  - intros err H. unfold started, cacheUrn. now rewrite H.
  - intros H. unfold started, cacheUrn. rewrite H.
    split; [reflexivity | now eexists].
Qed.

(** After a [cacheUrn] that returns, the URL of the request of every URL
    it returns is a key of the cache, so [listCached] lists it; the URL as
    returned is listed when the platform leaves it as it is. *)
Theorem cacheUrn_then_listCached (schedule : Schedule) (urn token : string)
    (cache : Cache) (urls : list string) :
  fst (cacheUrn net schedule urn token cache) = Ok urls ->
  exists listed,
    fst (listCached (snd (cacheUrn net schedule urn token cache))) = Ok listed
    /\ (forall url, In url urls -> In (requestUrl net url) listed)
    /\ (forall url, In url urls -> requestUrl net url = url -> In url listed).
Proof.
  intros H. eexists. split; [reflexivity|].
  destruct (cacheUrn_returned_keys schedule urn token cache urls H)
    as [_ Hkeys].
  split; [exact Hkeys|]. intros url Hin Hsame. rewrite <- Hsame.
  now apply Hkeys.
Qed.

End MoreTaskFacts.

Lemma cacheUrn_frame_witness :
  Worker.cache_match (Worker.baseUrl +++ "/manifest/dXJuOm90aGVy")
    (snd (Worker.cacheUrn Worker.flaky [] "dXJuOm1vZGVs" "token"
            Worker.sampleCache))
  = Some (Worker.mkResponse 200 [] "{}").
Proof.
  apply (proj1 (cacheUrn_frame Worker.flaky [] "dXJuOm1vZGVs" "token"
                  Worker.sampleCache)
           (Worker.baseUrl +++ "/manifest/dXJuOm90aGVy")).
  intros Hin. simpl in Hin.
  repeat (destruct Hin as [Hin|Hin]; [discriminate Hin|]). contradiction.
Defined.

Lemma cacheUrn_then_listCached_witness :
  exists listed,
    fst (Worker.listCached
           (snd (Worker.cacheUrn Worker.online [] "dXJuOm1vZGVs" "token" [])))
    = Ok listed
    /\ In (Worker.baseUrl +++ "/derivatives/urn%3Amodel%2Foutput%2F1%2Fa.png")
         listed.
Proof.
  destruct (cacheUrn_then_listCached Worker.online [] "dXJuOm1vZGVs" "token" []
              _ eq_refl) as (listed & Hl & _ & Hin).
  exists listed. split; [exact Hl|]. apply Hin; [|reflexivity].
  simpl. right. right. now left.
Defined.

Section ClearFacts.

Import Worker.

Lemma clearUrn_cache (urn : string) (cache : Cache) :
  snd (clearUrn urn cache)
  = filter (fun entry => negb (includes (fst entry) urn)) cache.
Proof.
  unfold clearUrn. simpl. rewrite delete_all. apply filter_ext_in.
  intros [k r] Hin. simpl. f_equal.
  destruct (includes k urn) eqn:E.
  - apply existsb_eqb_In, filter_In. split; [|exact E].
    apply in_map_iff. now exists (k, r).
  - destruct (existsb _ _) eqn:E'; [|reflexivity].
    apply existsb_eqb_In, filter_In in E' as [_ E']. congruence.
Qed.

Lemma clearUrn_urls (urn : string) (cache : Cache) :
  fst (clearUrn urn cache)
  = Ok (map fst (filter (fun entry => includes (fst entry) urn) cache)).
Proof. unfold clearUrn. simpl. now rewrite filter_keys. Qed.

Lemma filter_twice {A} (f g : A -> bool) (l : list A) :
  (forall x, In x l -> f x = true -> g x = true) ->
  filter f (filter g l) = filter f l.
Proof.
  induction l as [|a l IH]; intros H; simpl; [reflexivity|].
  assert (filter f (filter g l) = filter f l) as IH'
    by (apply IH; intros x Hx; apply H; now right).
  destruct (g a) eqn:Eg; simpl.
  - now rewrite IH'.
  - destruct (f a) eqn:Ef; [|exact IH'].
    rewrite (H a (or_introl eq_refl) Ef) in Eg. discriminate.
Qed.

(** Clearing the same identifier again finds nothing to delete: it returns
    the empty list and the cache stays as the first clearing left it. *)
Theorem clearUrn_again (urn : string) (cache : Cache) :
  clearUrn urn (snd (clearUrn urn cache)) = (Ok [], snd (clearUrn urn cache)).
Proof.
  rewrite (surjective_pairing (clearUrn urn (snd (clearUrn urn cache)))).
  rewrite clearUrn_urls, !clearUrn_cache. f_equal.
  - rewrite filter_none; [reflexivity|].
    intros e He. apply filter_In in He as [_ He].
    now apply negb_true_iff in He.
  - apply filter_all. intros e He. now apply filter_In in He.
Qed.

Lemma includes_empty (s : string) : includes s "" = true.
Proof. unfold includes. now destruct s. Qed.

(** With the empty string for identifier, as with any string that every
    cached URL contains, [clearUrn] deletes every entry of the cache, the
    pages of the application included, and returns all the keys. *)
Theorem clearUrn_everything (urn : string) (cache : Cache) :
  (forall url, In url (cache_keys cache) -> includes url urn = true) ->
  clearUrn urn cache = (Ok (cache_keys cache), []).
Proof.
  intros H.
  assert (forall e, In e cache -> includes (fst e) urn = true) as He.
  { intros e Hin. apply H. unfold cache_keys. now apply in_map. }
  rewrite (surjective_pairing (clearUrn urn cache)).
  rewrite clearUrn_urls, clearUrn_cache. f_equal.
  - rewrite filter_all; [reflexivity | exact He].
  - apply filter_none. intros e Hin. now rewrite (He e Hin).
Qed.

Lemma clearUrn_everything_witness :
  clearUrn "" sampleCache = (Ok (cache_keys sampleCache), []).
Proof.
  apply clearUrn_everything. intros url _. apply includes_empty.
Defined.

End ClearFacts.

Section CacheThenClear.

Import Worker.

Variable net : Network.

Lemma encodeURIComponent_app (a b : string) :
  encodeURIComponent (a +++ b)
  = encodeURIComponent a +++ encodeURIComponent b.
Proof.
  induction a as [|c a IH]; simpl; [reflexivity|].
  destruct (unreserved c); simpl; now rewrite IH.
Qed.

Lemma encodeURIComponent_unreserved (s : string) :
  unreservedOnly s = true -> encodeURIComponent s = s.
Proof.
  induction s as [|c s IH]; simpl; [reflexivity|].
  destruct (unreserved c); [|discriminate]. simpl. intros H. now rewrite IH.
Qed.

Lemma includes_inside (a s b p : string) :
  includes s p = true -> includes (a +++ s +++ b) p = true.
Proof.
  rewrite !includes_iff. intros (x & y & ->). exists (a +++ x), (y +++ b).
  now rewrite !append_assoc.
Qed.

(** An identifier made of characters that [encodeURIComponent] keeps is
    still to be read in the encoding of a string that contains it. *)
Lemma includes_encoded (s p : string) :
  unreservedOnly p = true -> includes s p = true ->
  includes (encodeURIComponent s) p = true.
Proof.
  intros Hp H. apply includes_iff in H as (a & b & ->).
  rewrite !encodeURIComponent_app, (encodeURIComponent_unreserved p Hp).
  apply includes_iff. now exists (encodeURIComponent a), (encodeURIComponent b).
Qed.

Lemma derivative_include (urn : string) (d : Derivative) :
  unreservedOnly urn = true ->
  includes (Worker.urn d) urn = true -> includes (basePath d) urn = true ->
  forall url, In url (derivUrl d :: map (fileUrl d) (files d)) ->
              includes url urn = true.
Proof.
  intros Hurn Hd Hb url [<-|Hfile].
  - unfold derivUrl. rewrite <- (append_empty_r (encodeURIComponent _)).
    rewrite <- append_assoc. apply includes_inside.
    now apply includes_encoded.
  - apply in_map_iff in Hfile as (file & <- & _). unfold fileUrl.
    rewrite <- (append_empty_r (encodeURIComponent _)).
    rewrite <- append_assoc. apply includes_inside.
    apply includes_encoded; [exact Hurn|].
    rewrite <- (append_empty_r file).
    change (basePath d +++ file +++ "") with ("" +++ basePath d +++ file +++ "").
    now apply includes_inside.
Qed.

(** What an element of the list of files has to tell of the model for the
    URLs built from it to contain the identifier. *)
Lemma pushElements_include (urn : string) (elements : list Element) :
  unreservedOnly urn = true ->
  (forall element, In element elements ->
     match element with
     | Shaped d =>
         includes (Worker.urn d) urn = true /\ includes (basePath d) urn = true
     | NoFiles u => includes u urn = true
     | NoObject => True
     end) ->
  forall fetches,
  (forall url, In url fetches -> includes url urn = true) ->
  forall url, In url (fst (pushElements fetches elements)) ->
              includes url urn = true.
Proof.
  intros Hurn. induction elements as [|[d|u|] elements IH];
    intros He fetches Hf url; cbn [pushElements fst].
  - apply Hf.
  - apply IH.
    + intros e Hin. apply He. now right.
    + intros u. rewrite pushAll_flat. simpl flat_map. rewrite app_nil_r.
      intros Hu. apply in_app_or in Hu as [Hu|Hu]; [now apply Hf|].
      destruct (He (Shaped d) (or_introl eq_refl)) as [Hd Hb].
      now apply (derivative_include urn d).
  - intros Hu. apply in_app_or in Hu as [Hu|[<-|[]]]; [now apply Hf|].
    rewrite <- (append_empty_r (encodeURIComponent _)).
    rewrite <- append_assoc. apply includes_inside.
    apply includes_encoded; [exact Hurn|].
    exact (He (NoFiles u) (or_introl eq_refl)).
  - apply Hf.
Qed.

Lemma started_include (urn : string) :
  unreservedOnly urn = true ->
  (forall elements element,
     fetchJson net ("/api/models/" +++ urn +++ "/files") = Ok (Iterable elements) ->
     In element elements ->
     match element with
     | Shaped d =>
         includes (Worker.urn d) urn = true /\ includes (basePath d) urn = true
     | NoFiles u => includes u urn = true
     | NoObject => True
     end) ->
  forall url, In url (started net urn) -> includes url urn = true.
Proof.
  intros Hurn He url. unfold started.
  assert (forall u, In u [baseUrl +++ "/manifest/" +++ urn] ->
                    includes u urn = true) as Hm.
  { intros u [<-|[]]. apply includes_iff. exists (baseUrl +++ "/manifest/"), "".
    now rewrite append_empty_r, append_assoc. }
  destruct (fetchJson net ("/api/models/" +++ urn +++ "/files"))
    as [[elements|]|err]; cbn [loops fst].
  - apply (pushElements_include urn elements Hurn); [|exact Hm].
    intros e. now apply He.
  - apply Hm.
  - intros [].
Qed.

(** When the identifier of the model is made of characters that
    [encodeURIComponent] keeps, the URN and the base path of every
    derivative contain it, and the platform leaves it to be read in the
    URL of the request of every job started, clearing the model after
    caching it deletes everything the caching has put: the cache is left
    as clearing alone would leave it. *)
Theorem cacheUrn_then_clearUrn (schedule : Schedule) (urn token : string)
    (cache : Cache) :
  unreservedOnly urn = true ->
  (forall elements element,
     fetchJson net ("/api/models/" +++ urn +++ "/files") = Ok (Iterable elements) ->
     In element elements ->
     match element with
     | Shaped d =>
         includes (Worker.urn d) urn = true /\ includes (basePath d) urn = true
     | NoFiles u => includes u urn = true
     | NoObject => True
     end) ->
  (forall url, In url (started net urn) -> includes url urn = true ->
               includes (requestUrl net url) urn = true) ->
  snd (clearUrn urn (snd (cacheUrn net schedule urn token cache)))
  = snd (clearUrn urn cache).
Proof.
  intros Hurn Hd Hparse.
  rewrite cacheUrn_cache, settle_cache, !clearUrn_cache.
  set (order := completionOrder schedule _).
  assert (forall e, In e (fulfilled net ("Bearer " +++ token) order) ->
            includes (fst e) urn = true) as Hput.
  { intros [k r] He. apply fulfilled_In in He as [He _]. simpl.
    apply in_map_iff in He as (u & <- & Hu).
    apply (Permutation_in _ (completionOrder_perm schedule _)) in Hu.
    apply Hparse; [exact Hu|]. now apply (started_include urn Hurn Hd). }
  rewrite putAll_split, filter_app.
  rewrite (filter_none _ (cache_putAll _ [])).
  - rewrite app_nil_r. apply filter_twice. intros e _ He.
    unfold absent. destruct (existsb _ _) eqn:Ex; [|reflexivity].
    apply existsb_eqb_In, in_map_iff in Ex as (e' & Heq & Hin).
    apply Hput in Hin. rewrite Heq in Hin. rewrite Hin in He. discriminate.
  - intros e He. apply putAll_In in He as [He|[]].
    now rewrite (Hput e He).
Qed.

End CacheThenClear.

Lemma cacheUrn_then_clearUrn_witness :
  snd (Worker.clearUrn "model"
         (snd (Worker.cacheUrn
                 (Worker.mkNetwork
                    (fun _ => Ok (Worker.Iterable
                                    (map Worker.Shaped Worker.sampleDerivatives)))
                    (fun url _ => Ok (Worker.mkResponse 200 [] url))
                    Worker.percentSpaces)
                 [] "model" "token" Worker.sampleCache)))
  = snd (Worker.clearUrn "model" Worker.sampleCache).
Proof.
  apply cacheUrn_then_clearUrn; [reflexivity| |].
  - intros elements element [= <-] [<-|[]]. split; reflexivity.
  - intros url Hin _. simpl in Hin.
    repeat (destruct Hin as [<-|Hin]; [reflexivity|]). contradiction.
Defined.

(* ================================================================== *)
(** ** Properties of the installation and of the interception *)
(* ================================================================== *)

Section InterceptFacts.

Import Worker Intercept.

Lemma withoutSearch_query (url query : string) :
  withoutSearch (url +++ "?" +++ query) = withoutSearch url.
Proof.
  induction url as [|c url IH]; simpl; [reflexivity|].
  destruct (Ascii.eqb c "?" || Ascii.eqb c "#");
    [reflexivity | f_equal; exact IH].
Qed.

Lemma caches_match_some (url : string) (found : Response) (cache : Cache) :
  caches_match url cache = Some found ->
  exists key, In (key, found) cache /\ withoutSearch key = withoutSearch url.
Proof.
  induction cache as [|[k r] cache IH]; simpl; [discriminate|].
  destruct (String.eqb_spec (withoutSearch k) (withoutSearch url)) as [E|_].
  - intros [= <-]. exists k. split; [now left | exact E].
  - intros H. destruct (IH H) as (key & Hin & E). exists key.
    split; [now right | exact E].
Qed.

Lemma caches_match_finds (url key : string) (resp : Response) (cache : Cache) :
  In (key, resp) cache -> withoutSearch key = withoutSearch url ->
  exists found, caches_match url cache = Some found.
Proof.
  intros Hin E. induction cache as [|[k r] cache IH]; [contradiction|]. simpl.
  destruct (String.eqb_spec (withoutSearch k) (withoutSearch url)) as [_|Hne].
  - now exists r.
  - destruct Hin as [[= -> ->]|Hin]; [contradiction | now apply IH].
Qed.

(** A request for anything but the token whose URL is that of a cached
    entry, the query left aside, is answered with a cached response for
    that URL, whatever the network does: the page works offline, and a
    query that differs from the cached one does not matter. *)
Theorem fetchAsync_cached (first later : Web) (url key : string)
    (resp : Response) (cache : Cache) :
  endsWith url "/api/token" = false ->
  In (key, resp) cache ->
  withoutSearch key = withoutSearch url ->
  exists found key',
    fst (fetchAsync first later url cache) = Ok found
    /\ In (key', found) cache
    /\ withoutSearch key' = withoutSearch url.
Proof.
  intros Htoken Hin E. unfold fetchAsync. rewrite Htoken.
  destruct (caches_match_finds url key resp cache Hin E) as [found Hfound].
  rewrite Hfound. destruct (caches_match_some url found cache Hfound)
    as (key' & Hin' & E').
  now exists found, key'.
Qed.

Lemma fetchAsync_cached_witness :
  exists found key',
    fst (fetchAsync down down "https://app.example/index.html?v=2" tokenCache)
    = Ok found
    /\ In (key', found) tokenCache
    /\ withoutSearch key' = withoutSearch "https://app.example/index.html?v=2".
Proof.
  apply (fetchAsync_cached down down "https://app.example/index.html?v=2"
           "https://app.example/index.html?v=1"
           {| status := 200; vary := []; body := "<html>" |} tokenCache).
  - reflexivity.
  - simpl. right. now left.
  - reflexivity.
Defined.

(** A request for the token is answered by the network whenever the fetch
    is fulfilled, a cached token or not, and the cache is left alone; only
    when the fetch is rejected is the request answered as any other. *)
Theorem fetchAsync_token (first later : Web) (url : string) (cache : Cache) :
  endsWith url "/api/token" = true ->
  (forall response, first url = Ok response ->
     fetchAsync first later url cache = (Ok response, cache))
  /\ (forall err, first url = Throw err ->
        fst (fetchAsync first later url cache)
        = match caches_match url cache with
          | Some found => Ok found
          | None => later url
          end).
Proof.
  intros Htoken. unfold fetchAsync. rewrite Htoken. split.
  - now intros response ->.
  - intros err ->. now destruct (caches_match url cache).
Qed.

Lemma fetchAsync_token_witness :
  fetchAsync up down "https://app.example/api/token" tokenCache
  = (Ok {| status := 200; vary := []; body := "https://app.example/api/token" |},
     tokenCache)
  /\ fst (fetchAsync down down "https://app.example/api/token" tokenCache)
     = Ok {| status := 200; vary := []; body := "old" |}.
Proof.
  split.
  - apply (proj1 (fetchAsync_token up down "https://app.example/api/token"
                    tokenCache eq_refl)). reflexivity.
  - apply (proj2 (fetchAsync_token down down "https://app.example/api/token"
                    tokenCache eq_refl) "TypeError: Failed to fetch").
    reflexivity.
Defined.

Lemma cache_put_keys (url key : string) (resp : Response) (cache : Cache) :
  In key (cache_keys (cache_put url resp cache)) ->
  key = url \/ In key (cache_keys cache).
Proof.
  unfold cache_put, cache_keys. rewrite map_app. intros H.
  apply in_app_or in H as [H|[<-|[]]]; [right | now left].
  apply in_map_iff in H as (e & <- & He). apply in_map.
  unfold cache_delete in He. now apply filter_In in He.
Qed.

Lemma caches_match_key (url : string) (found : Response) (cache : Cache) :
  caches_match url cache = Some found ->
  exists key, In key (cache_keys cache)
              /\ withoutSearch key = withoutSearch url.
Proof.
  intros H. destruct (caches_match_some url found cache H) as (key & Hin & E).
  exists key. split; [|exact E]. unfold cache_keys.
  apply in_map_iff. now exists (key, found).
Qed.

(** What interception does to the cache.  The cache changes only by
    putting, under the URL of the request, the response just fetched for
    it, and only when that URL is, as a string, in [STATIC_URLS] or
    [API_URLS], is matched in the cache with the query ignored, and the
    response is [ok] and one the cache stores.  The URL of the request is
    then a key, be it new: every key of the cache afterwards is, the query
    left aside, a key the cache had before, and no more than that.  A
    request that is not matched in the cache leaves the cache as it is. *)
Theorem fetchAsync_cache (first later : Web) (url : string) (cache : Cache) :
  (snd (fetchAsync first later url cache) = cache
   \/ exists found resp,
        caches_match url cache = Some found
        /\ In url (STATIC_URLS ++ API_URLS)
        /\ later url = Ok resp /\ ok resp = true /\ storable resp = true
        /\ snd (fetchAsync first later url cache) = cache_put url resp cache)
  /\ (forall found resp,
        endsWith url "/api/token" = false ->
        caches_match url cache = Some found ->
        In url (STATIC_URLS ++ API_URLS) ->
        later url = Ok resp -> ok resp = true -> storable resp = true ->
        snd (fetchAsync first later url cache) = cache_put url resp cache
        /\ In url (cache_keys (snd (fetchAsync first later url cache))))
  /\ (forall key,
        In key (cache_keys (snd (fetchAsync first later url cache))) ->
        exists key', In key' (cache_keys cache)
                     /\ withoutSearch key' = withoutSearch key)
  /\ (caches_match url cache = None ->
      snd (fetchAsync first later url cache) = cache).
Proof.
  assert (snd (fetchAsync first later url cache) = cache
          \/ exists found resp,
               caches_match url cache = Some found
               /\ In url (STATIC_URLS ++ API_URLS)
               /\ later url = Ok resp /\ ok resp = true
               /\ storable resp = true
               /\ snd (fetchAsync first later url cache)
                  = cache_put url resp cache) as Hcases.
  { unfold fetchAsync.
    destruct (caches_match url cache) as [found|] eqn:Hfound;
      [|destruct (endsWith url "/api/token"); [destruct (first url)|];
        now left].
    destruct (existsb (String.eqb url) STATIC_URLS
              || existsb (String.eqb url) API_URLS) eqn:Hlisted;
      [|destruct (endsWith url "/api/token"); [destruct (first url)|];
        now left].
    unfold cache_add, refusal. destruct (later url) as [resp|err] eqn:El;
      [|destruct (endsWith url "/api/token"); [destruct (first url)|];
        now left].
    destruct (ok resp) eqn:Eok;
      [|destruct (endsWith url "/api/token"); [destruct (first url)|];
        now left].
    destruct (storable resp) eqn:Est;
      [|destruct (endsWith url "/api/token"); [destruct (first url)|];
        now left].
    assert (In url (STATIC_URLS ++ API_URLS)) as Hin.
    { apply in_or_app. apply orb_true_iff in Hlisted as [H|H];
        [left | right]; now apply existsb_eqb_In. }
    destruct (endsWith url "/api/token"); [destruct (first url)|];
      try (now left); right; exists found, resp; simpl; now repeat split. }
  split; [exact Hcases|]. split; [|split].
  - intros found resp Htoken Hfound Hin Hl Hok Hst.
    assert (snd (fetchAsync first later url cache) = cache_put url resp cache)
      as Hput.
    { assert (existsb (String.eqb url) STATIC_URLS
              || existsb (String.eqb url) API_URLS = true) as Hlisted.
      { apply orb_true_iff. apply in_app_or in Hin as [H|H];
          [left | right]; now apply existsb_eqb_In. }
      unfold fetchAsync. rewrite Htoken, Hfound, Hlisted.
      unfold cache_add, refusal. now rewrite Hl, Hok, Hst. }
    split; [exact Hput|]. rewrite Hput. unfold cache_put, cache_keys.
    rewrite map_app. apply in_or_app. right. now left.
  - intros key Hkey.
    destruct Hcases as [Hsame|(found & resp & Hfound & _ & _ & _ & _ & Hput)].
    + rewrite Hsame in Hkey. now exists key.
    + rewrite Hput in Hkey. apply cache_put_keys in Hkey as [->|Hkey];
        [|now exists key].
      exact (caches_match_key url found cache Hfound).
  - intros Hnone.
    destruct Hcases as [Hsame|(found & resp & Hfound & _)];
      [exact Hsame | congruence].
Qed.

(** A stylesheet of the viewer cached with a query: a request for it
    without the query is answered from the cache and adds a key. *)
Example fetchAsync_new_key :
  let cache := [ (viewer +++ "/style.css?v=1",
                  {| status := 200; vary := []; body := "old" |}) ] in
  fetchAsync down up (viewer +++ "/style.css") cache
  = (Ok {| status := 200; vary := []; body := "old" |},
     cache ++ [ (viewer +++ "/style.css",
                 {| status := 200; vary := [];
                    body := viewer +++ "/style.css" |}) ]).
Proof. reflexivity. Qed.

Lemma fetchAsync_miss (first later : Web) (url : string) (cache : Cache) :
  caches_match url cache = None ->
  endsWith url "/api/token" = false ->
  fetchAsync first later url cache = (later url, cache).
Proof. unfold fetchAsync. now intros -> ->. Qed.

End InterceptFacts.

Section InstallFacts.

Import Worker Intercept.

Variable web : Web.
Variable origin : string.

(** The response [cache.addAll] accepts for a URL, if any. *)
Lemma putAll_match (accepted : string -> option Response)
    (entries : list (string * Response)) :
  (forall k r, In (k, r) entries -> accepted k = Some r) ->
  forall cache url,
  cache_match url (cache_putAll entries cache)
  = if existsb (String.eqb url) (map fst entries) then accepted url
    else cache_match url cache.
Proof.
  induction entries as [|[k r] entries IH]; intros Hacc cache url; simpl;
    [reflexivity|].
  rewrite IH by (intros k' r' H; apply Hacc; now right).
  rewrite cache_match_put.
  destruct (existsb (String.eqb url) (map fst entries)).
  - now rewrite orb_true_r.
  - rewrite orb_false_r. destruct (String.eqb_spec url k) as [->|Hne].
    + rewrite String.eqb_refl. symmetry. apply Hacc. now left.
    + destruct (String.eqb_spec k url) as [->|_]; [contradiction|reflexivity].
Qed.

Lemma received_In (urls : list string) (k : string) (r : Response) :
  In (k, r)
    (received (map (fun url => (absolute origin url,
                                refusal (web (absolute origin url)))) urls))
  <-> (exists url, In url urls /\ k = absolute origin url)
      /\ refusal (web k) = Ok r.
Proof.
  unfold received. rewrite in_flat_map. split.
  - intros ([k' o] & Hin & Hr). apply in_map_iff in Hin as (url & [= <- <-] & Hin).
    simpl in Hr. destruct (refusal (web (absolute origin url))) as [r'|] eqn:E;
      [|contradiction].
    destruct Hr as [[= <- <-]|[]]. split; [now exists url | exact E].
  - intros [(url & Hin & ->) E].
    exists (absolute origin url, refusal (web (absolute origin url))).
    split; [apply in_map_iff; now exists url|]. simpl. rewrite E. now left.
Qed.

(** [cache.addAll] stores every response or none. *)
Lemma cache_addAll_spec (schedule : Schedule) (urls : list string)
    (cache : Cache) :
  match cache_addAll web origin schedule urls cache with
  | (Ok _, cache') =>
      (forall url, In url urls ->
         exists resp, refusal (web (absolute origin url)) = Ok resp
                      /\ cache_match (absolute origin url) cache' = Some resp)
      /\ (forall k, ~ In k (map (absolute origin) urls) ->
                    cache_match k cache' = cache_match k cache)
      /\ (NoDup (cache_keys cache) -> NoDup (cache_keys cache'))
  | (Throw err, cache') =>
      cache' = cache
      /\ exists url, In url urls
                     /\ refusal (web (absolute origin url)) = Throw err
  end.
Proof.
  unfold cache_addAll.
  set (fetched := map (fun url => (absolute origin url,
                                   refusal (web (absolute origin url)))) urls).
  pose proof (completionOrder_perm schedule (map snd fetched)) as HP.
  destruct (Routes.firstRejection (completionOrder schedule (map snd fetched)))
    as [err|] eqn:E.
  - split; [reflexivity|]. apply firstRejection_some in E.
    apply (Permutation_in _ HP) in E. unfold fetched in E.
    rewrite map_map in E. apply in_map_iff in E as (url & Hurl & Hin).
    now exists url.
  - pose proof (proj1 (firstRejection_none _) E) as Hok.
    set (accepted := fun k => match refusal (web k) with
                              | Ok r => Some r
                              | Throw _ => None
                              end).
    assert (forall k r, In (k, r) (received fetched) -> accepted k = Some r)
      as Hacc.
    { intros k r H. apply received_In in H as [_ H]. unfold accepted.
      now rewrite H. }
    assert (forall url, In url urls ->
              exists resp, refusal (web (absolute origin url)) = Ok resp)
      as Hall.
    { intros url Hin.
      destruct (refusal (web (absolute origin url))) as [resp|e] eqn:Er;
        [now exists resp|].
      assert (is_ok (@Throw Response e) = true) as Hbad; [|discriminate].
      apply Hok. apply (Permutation_in _ (Permutation_sym HP)).
      unfold fetched. rewrite map_map. apply in_map_iff. now exists url. }
    split; [|split].
    + intros url Hin. destruct (Hall url Hin) as [resp Hresp].
      exists resp. split; [exact Hresp|].
      rewrite (putAll_match accepted _ Hacc).
      replace (existsb _ _) with true; [unfold accepted; now rewrite Hresp|].
      symmetry. apply existsb_eqb_In, in_map_iff.
      exists (absolute origin url, resp). split; [reflexivity|].
      apply received_In. split; [now exists url | exact Hresp].
    + intros k Hk. rewrite (putAll_match accepted _ Hacc).
      replace (existsb _ _) with false; [reflexivity|].
      symmetry. apply not_true_is_false. intros H.
      apply existsb_eqb_In, in_map_iff in H as ([k' r] & Hk' & Hin).
      simpl in Hk'. subst k'. apply received_In in Hin as [(url & Hin & ->) _].
      apply Hk. now apply in_map.
    + apply putAll_NoDup.
Qed.

(** When the installation succeeds, every URL of [STATIC_URLS] and of
    [API_URLS], resolved against the origin, is in the cache with the
    response fetched for it, and that response is [ok]. *)
Theorem installAsync_installed (schedule1 schedule2 : Schedule)
    (cache cache' : Cache) :
  installAsync web origin schedule1 schedule2 cache = (Ok tt, cache') ->
  forall url, In url (STATIC_URLS ++ API_URLS) ->
    exists resp,
      web (absolute origin url) = Ok resp /\ ok resp = true
      /\ cache_match (absolute origin url) cache' = Some resp.
Proof.
  unfold installAsync. intros H url Hin.
  pose proof (cache_addAll_spec schedule1 STATIC_URLS cache) as H1.
  destruct (cache_addAll web origin schedule1 STATIC_URLS cache)
    as [[[]|e1] c1]; [|discriminate].
  pose proof (cache_addAll_spec schedule2 API_URLS c1) as H2.
  rewrite H in H2. destruct H1 as (Hs & _ & _). destruct H2 as (Ha & Hframe & _).
  assert (forall u resp, refusal (web u) = Ok resp ->
            web u = Ok resp /\ ok resp = true) as Hrefusal.
  { intros u resp. unfold refusal. destruct (web u) as [r|]; [|discriminate].
    destruct (ok r) eqn:E; [|discriminate].
    destruct (storable r); [|discriminate]. now intros [= <-]. }
  apply in_app_or in Hin as [Hin|Hin].
  - destruct (Hs url Hin) as (resp & Hresp & Hmatch).
    destruct (Hrefusal _ _ Hresp) as [Hweb Hok].
    exists resp. split; [exact Hweb|]. split; [exact Hok|].
    destruct (in_dec string_dec (absolute origin url)
                (map (absolute origin) API_URLS)) as [Hapi|Hnot].
    + apply in_map_iff in Hapi as (u & Hu & Hin').
      destruct (Ha u Hin') as (resp' & Hresp' & Hmatch').
      rewrite Hu in Hresp', Hmatch'. congruence.
    + now rewrite (Hframe _ Hnot).
  - destruct (Ha url Hin) as (resp & Hresp & Hmatch).
    destruct (Hrefusal _ _ Hresp) as [Hweb Hok]. now exists resp.
Qed.

(** When a URL of [STATIC_URLS] cannot be fetched, or its response is not
    [ok] or is one the cache does not store, the installation is rejected
    and the cache is as it was: no static URL is stored, and the API URLs
    are not stored either. *)
Theorem installAsync_refused (schedule1 schedule2 : Schedule) (cache : Cache)
    (url err : string) :
  In url STATIC_URLS ->
  refusal (web (absolute origin url)) = Throw err ->
  exists err',
    installAsync web origin schedule1 schedule2 cache = (Throw err', cache).
Proof.
  intros Hin Hbad. unfold installAsync.
  pose proof (cache_addAll_spec schedule1 STATIC_URLS cache) as H1.
  destruct (cache_addAll web origin schedule1 STATIC_URLS cache)
    as [[[]|e1] c1].
  - destruct H1 as (Hs & _). destruct (Hs url Hin) as (resp & Hresp & _).
    congruence.
  - destruct H1 as [-> _]. now exists e1.
Qed.

End InstallFacts.

Lemma installAsync_installed_witness :
  exists resp,
    Intercept.up (Intercept.absolute "https://app.example" "/api/models")
    = Ok resp
    /\ Intercept.ok resp = true
    /\ Worker.cache_match
         (Intercept.absolute "https://app.example" "/api/models")
         (snd (Intercept.installAsync Intercept.up "https://app.example" [] []
                 Intercept.tokenCache))
       = Some resp.
Proof.
  apply (installAsync_installed Intercept.up "https://app.example" [] []
           Intercept.tokenCache).
  - reflexivity.
  - apply in_or_app. right. simpl. right. now left.
Defined.

Lemma installAsync_refused_witness :
  exists err',
    Intercept.installAsync Intercept.down "https://app.example" [] []
      Intercept.tokenCache
    = (Throw err', Intercept.tokenCache).
Proof.
  apply (installAsync_refused Intercept.down "https://app.example" [] []
           Intercept.tokenCache "/index.html" "TypeError: Failed to fetch").
  - simpl. right. now left.
  - reflexivity.
Defined.

(* ================================================================== *)
(** ** The cache across the operations of the worker, and the page *)
(* ================================================================== *)

Section InvariantFacts.

Import Worker Intercept.

Variable net : Network.

Lemma cacheUrn_NoDup (schedule : Schedule) (urn token : string) (cache : Cache) :
  NoDup (cache_keys cache) ->
  NoDup (cache_keys (snd (cacheUrn net schedule urn token cache))).
Proof.
  intros H. rewrite cacheUrn_cache, settle_cache. now apply putAll_NoDup.
Qed.

Lemma clearUrn_NoDup (urn : string) (cache : Cache) :
  NoDup (cache_keys cache) -> NoDup (cache_keys (snd (clearUrn urn cache))).
Proof. intros H. rewrite clearUrn_cache. now apply keys_filter_NoDup. Qed.

(** The three ways of a message: one of the three operations, or
    another. *)
Lemma operation_cases (data : MessageData) :
  operation data = Str "CACHE_URN" \/ operation data = Str "CLEAR_URN"
  \/ operation data = Str "LIST_CACHES"
  \/ (operation data <> Str "CACHE_URN" /\ operation data <> Str "CLEAR_URN"
      /\ operation data <> Str "LIST_CACHES").
Proof.
  destruct (operation data) as [| |op];
    try (right; right; right; repeat split; discriminate).
  destruct (String.eqb_spec op "CACHE_URN") as [->|H1]; [now left|].
  destruct (String.eqb_spec op "CLEAR_URN") as [->|H2]; [now right; left|].
  destruct (String.eqb_spec op "LIST_CACHES") as [->|H3];
    [now right; right; left|].
  right; right; right. repeat split; congruence.
Qed.

(** At most one entry per URL: no message to the worker, no installation
    and no intercepted request leaves two entries with the same URL in a
    cache that had none. *)
Theorem cache_keys_distinct (cache : Cache) :
  NoDup (cache_keys cache) ->
  (forall schedule data replies,
     NoDup (cache_keys
              (Worker.cache (messageAsync net schedule data
                               {| Worker.cache := cache; port := replies |}))))
  /\ (forall web origin schedule1 schedule2,
        NoDup (cache_keys
                 (snd (installAsync web origin schedule1 schedule2 cache))))
  /\ (forall first later url,
        NoDup (cache_keys (snd (fetchAsync first later url cache)))).
Proof.
  intros H. split; [|split].
  - intros schedule data replies.
    destruct (operation_cases data) as [E|[E|[E|(E1 & E2 & E3)]]].
    + pose proof (cacheUrn_NoDup schedule (toString (data_urn data))
                    (toString (access_token data)) cache H) as Hc.
      unfold messageAsync. rewrite E. cbn [Worker.cache].
      destruct (cacheUrn net schedule _ _ cache) as [[urls|err] cache'];
        exact Hc.
    + pose proof (clearUrn_NoDup (toString (data_urn data)) cache H) as Hc.
      unfold messageAsync. rewrite E. cbn [Worker.cache].
      destruct (clearUrn _ cache) as [[urls|err] cache']; exact Hc.
    + unfold messageAsync. rewrite E. exact H.
    + now rewrite (messageAsync_other net schedule data _ E1 E2 E3).
  - intros web origin schedule1 schedule2. unfold installAsync.
    pose proof (cache_addAll_spec web origin schedule1 STATIC_URLS cache) as H1.
    destruct (cache_addAll web origin schedule1 STATIC_URLS cache)
      as [[[]|e1] c1].
    + destruct H1 as (_ & _ & H1).
      pose proof (cache_addAll_spec web origin schedule2 API_URLS c1) as H2.
      destruct (cache_addAll web origin schedule2 API_URLS c1) as [[[]|e2] c2].
      * destruct H2 as (_ & _ & H2). auto.
      * destruct H2 as [-> _]. auto.
    + now destruct H1 as [-> _].
  - intros first later url. unfold fetchAsync.
    assert (NoDup (cache_keys (cache_add later url cache))) as Hadd.
    { unfold cache_add. destruct (refusal (later url)); [|exact H].
      now apply cache_put_NoDup. }
    destruct (endsWith url "/api/token"); [destruct (first url)|];
      try exact H;
      (destruct (caches_match url cache); [|exact H]; cbn [snd];
       now destruct (existsb (String.eqb url) STATIC_URLS
                     || existsb (String.eqb url) API_URLS)).
Qed.

End InvariantFacts.

Lemma cache_keys_distinct_witness :
  NoDup (Worker.cache_keys
           (Worker.cache
              (Worker.messageAsync Worker.online [0; 0; 0]%nat
                 (Worker.mkMessageData (Str "CACHE_URN") (Str "dXJuOm1vZGVs")
                    (Str "token"))
                 (Worker.mkState Worker.sampleCache [])))).
Proof.
  assert (NoDup (Worker.cache_keys Worker.sampleCache)) as H.
  { repeat constructor; simpl; intuition discriminate. }
  exact (proj1 (cache_keys_distinct Worker.online Worker.sampleCache H)
           [0; 0; 0]%nat
           (Worker.mkMessageData (Str "CACHE_URN") (Str "dXJuOm1vZGVs")
              (Str "token"))
           []).
Defined.

Section ForegroundFacts.

Import Worker Foreground.

Variable net : Network.

Lemma submit_cache (schedule : Schedule) (urn : string) (accessToken : Value)
    (cache : Cache) :
  submitWorkerTask net schedule (cacheTask urn accessToken) cache
  = (match fst (cacheUrn net schedule urn (toString accessToken) cache) with
     | Ok urls => Resolved (ReplyOk urls)
     | Throw err => onmessage (ReplyError err)
     end,
     snd (cacheUrn net schedule urn (toString accessToken) cache)).
Proof.
  unfold submitWorkerTask, messageAsync. cbn [operation cacheTask data_urn
    access_token Worker.cache port]. cbn [toString].
  now destruct (cacheUrn net schedule urn (toString accessToken) cache)
    as [[urls|err] cache'].
Qed.

Lemma submit_clear (schedule : Schedule) (urn : string) (cache : Cache) :
  submitWorkerTask net schedule (clearTask urn) cache
  = (Resolved (ReplyOk (filter (fun url => includes url urn) (cache_keys cache))),
     snd (clearUrn urn cache)).
Proof. reflexivity. Qed.

Lemma submit_list (schedule : Schedule) (cache : Cache) :
  submitWorkerTask net schedule listTask cache
  = (Resolved (ReplyOk (cache_keys cache)), cache).
Proof. reflexivity. Qed.

(** A task whose operation is none of the three never settles: the worker
    posts nothing, the promise of the page stays pending and the cache is
    untouched.  A task of one of the three operations settles. *)
Theorem submitWorkerTask_settles (schedule : Schedule) (task : MessageData)
    (cache : Cache) :
  (operation task <> Str "CACHE_URN" -> operation task <> Str "CLEAR_URN" ->
   operation task <> Str "LIST_CACHES" ->
   submitWorkerTask net schedule task cache = (Pending, cache))
  /\ (operation task = Str "CACHE_URN" \/ operation task = Str "CLEAR_URN"
      \/ operation task = Str "LIST_CACHES" ->
      fst (submitWorkerTask net schedule task cache) <> Pending).
Proof.
  split.
  - intros H1 H2 H3. unfold submitWorkerTask.
    now rewrite (messageAsync_other net schedule task _ H1 H2 H3).
  - unfold submitWorkerTask, messageAsync. intros [E|[E|E]]; rewrite E.
    + destruct (cacheUrn net schedule _ _ _) as [[urls|err] cache']; simpl;
        [discriminate|]. now destruct (String.eqb err "").
    + discriminate.
    + discriminate.
Qed.

(** The promise of a caching task is rejected exactly when [cacheUrn]
    throws an error whose text is not empty; it is resolved with the URLs
    when [cacheUrn] returns. *)
Theorem submitWorkerTask_cache (schedule : Schedule) (urn : string)
    (accessToken : Value) (cache : Cache) :
  (forall urls,
     fst (cacheUrn net schedule urn (toString accessToken) cache) = Ok urls <->
     fst (submitWorkerTask net schedule (cacheTask urn accessToken) cache)
     = Resolved (ReplyOk urls))
  /\ (forall err,
        err <> "" ->
        (fst (cacheUrn net schedule urn (toString accessToken) cache)
         = Throw err <->
         fst (submitWorkerTask net schedule (cacheTask urn accessToken) cache)
         = Rejected (ReplyError err))).
Proof.
  rewrite submit_cache. cbn [fst].
  destruct (fst (cacheUrn net schedule urn (toString accessToken) cache))
    as [urls|err].
  - split.
    + intros urls'. split; intros [= ->]; reflexivity.
    + intros err _. split; discriminate.
  - split.
    + intros urls. split; [discriminate|]. unfold onmessage.
      destruct (String.eqb err ""); discriminate.
    + intros err' Hne. unfold onmessage. split.
      * intros [= ->]. destruct (String.eqb_spec err' ""); [contradiction|].
        reflexivity.
      * destruct (String.eqb err ""); [discriminate|]. now intros [= ->].
Qed.

(** After a clearing task for a model, the URLs a listing task returns
    show the model as not cached. *)
Theorem cached_after_clear (schedule1 schedule2 : Schedule) (urn : string)
    (cache : Cache) :
  exists urls,
    fst (submitWorkerTask net schedule2 listTask
           (snd (submitWorkerTask net schedule1 (clearTask urn) cache)))
    = Resolved (ReplyOk urls)
    /\ cached urls urn = false.
Proof.
  rewrite submit_clear, submit_list. cbn [fst snd]. eexists.
  split; [reflexivity|]. unfold cached. rewrite clearUrn_cache.
  rewrite filter_none; [reflexivity|].
  intros url Hin. unfold cache_keys in Hin.
  apply in_map_iff in Hin as (e & <- & Hin).
  apply filter_In in Hin as [_ Hin]. now apply negb_true_iff in Hin.
Qed.

(** After a caching task for a model that is resolved, the URLs a listing
    task returns show the model as cached, provided the identifier of the
    model is still to be read in the URL of the request for its manifest,
    as it is when the platform leaves the identifier as it is written. *)
Theorem cached_after_cache (schedule1 schedule2 : Schedule) (urn : string)
    (accessToken : Value) (cache : Cache) (fetched : list string) :
  includes (requestUrl net (baseUrl +++ "/manifest/" +++ urn)) urn = true ->
  fst (submitWorkerTask net schedule1 (cacheTask urn accessToken) cache)
  = Resolved (ReplyOk fetched) ->
  exists urls,
    fst (submitWorkerTask net schedule2 listTask
           (snd (submitWorkerTask net schedule1 (cacheTask urn accessToken)
                   cache)))
    = Resolved (ReplyOk urls)
    /\ cached urls urn = true.
Proof.
  rewrite submit_cache, submit_list. cbn [fst snd]. intros Hurn H.
  assert (fst (cacheUrn net schedule1 urn (toString accessToken) cache)
          = Ok fetched) as Hok.
  { destruct (fst (cacheUrn net schedule1 urn (toString accessToken) cache))
      as [urls|err].
    - now injection H as ->.
    - unfold onmessage in H. destruct (String.eqb err ""); discriminate. }
  eexists. split; [reflexivity|].
  destruct (cacheUrn_returned_keys net schedule1 urn (toString accessToken)
              cache fetched Hok) as [Hmanifest Hkeys].
  assert (In (requestUrl net (baseUrl +++ "/manifest/" +++ urn))
            (filter (fun url => includes url urn)
               (cache_keys
                  (snd (cacheUrn net schedule1 urn (toString accessToken)
                          cache)))))
    as Hin.
  { apply filter_In. split; [now apply Hkeys | exact Hurn]. }
  unfold cached. destruct (filter _ _); [contradiction | reflexivity].
Qed.

(** An identifier with a space in it: the request for the manifest has
    [%20] for the space, the task is resolved with the URL as it was
    built, and the listing shows the model as not cached. *)
Example cached_after_cache_space :
  let net := {| fetchJson := fun _ => Ok (Iterable []);
                fetch := fun url _ =>
                  Ok {| status := 200; vary := []; body := url |};
                requestUrl := percentSpaces |} in
  submitWorkerTask net [] (cacheTask "a b" (Str "token")) []
  = (Resolved (ReplyOk [ baseUrl +++ "/manifest/a b" ]),
     [ (baseUrl +++ "/manifest/a%20b",
        {| status := 200; vary := []; body := baseUrl +++ "/manifest/a%20b" |}) ])
  /\ cached [ baseUrl +++ "/manifest/a%20b" ] "a b" = false.
Proof. split; reflexivity. Qed.

End ForegroundFacts.

Lemma submitWorkerTask_settles_witness :
  Foreground.submitWorkerTask Worker.online []
    (Worker.mkMessageData (Str "PING") Undefined Undefined) Worker.sampleCache
  = (Foreground.Pending, Worker.sampleCache).
Proof.
  apply (proj1 (submitWorkerTask_settles Worker.online []
                  (Worker.mkMessageData (Str "PING") Undefined Undefined)
                  Worker.sampleCache)); discriminate.
Defined.

Lemma submitWorkerTask_cache_witness :
  fst (Foreground.submitWorkerTask Worker.flaky []
         (Foreground.cacheTask "dXJuOm1vZGVs" Null) [])
  = Foreground.Rejected (Worker.ReplyError "TypeError: Failed to fetch").
Proof.
  apply (proj2 (submitWorkerTask_cache Worker.flaky [] "dXJuOm1vZGVs" Null [])
           "TypeError: Failed to fetch").
  - discriminate.
  - reflexivity.
Defined.

Lemma cached_after_cache_witness :
  exists urls,
    fst (Foreground.submitWorkerTask Worker.online [] Foreground.listTask
           (snd (Foreground.submitWorkerTask Worker.online []
                   (Foreground.cacheTask "dXJuOm1vZGVs" (Str "token"))
                   Worker.sampleCache)))
    = Foreground.Resolved (Worker.ReplyOk urls)
    /\ Foreground.cached urls "dXJuOm1vZGVs" = true.
Proof.
  eapply (cached_after_cache Worker.online [] [] "dXJuOm1vZGVs" (Str "token")
            Worker.sampleCache).
  - reflexivity.
  - reflexivity.
Defined.

(* ================================================================== *)
(** ** The route and the worker together *)
(* ================================================================== *)

Section RouteAndWorker.

Import Models Routes.

Variable service : Service.

Lemma entryOf_item (token : string) (it : Item) (entry : Entry) :
  entryOf service token it = Ok entry -> item entry = it.
Proof.
  unfold entryOf. destruct (fst (enumerateFiles service it token []));
    [|discriminate]. now intros [= <-].
Qed.

Lemma entryOf_other (token : string) (it : Item) :
  mime it <> Str "application/autodesk-svf" ->
  mime it <> Str "application/autodesk-f2d" ->
  mime it <> Str "application/autodesk-db" ->
  entryOf service token it
  = Ok {| item := it; files := [ rootFileName (path it) ] |}.
Proof.
  intros H1 H2 H3. unfold entryOf. rewrite enumerateFiles_switch.
  destruct (mime it) as [| |s]; try reflexivity.
  destruct (String.eqb_spec s "application/autodesk-svf") as [->|_];
    [congruence|].
  destruct (String.eqb_spec s "application/autodesk-f2d") as [->|_];
    [congruence|].
  destruct (String.eqb_spec s "application/autodesk-db") as [->|_];
    [congruence | reflexivity].
Qed.

(** For a derivative that is neither SVF, F2D nor a property database,
    described from a URN that decodes, the route lists the root file name
    as its only file, and the URL the worker builds for that file is the
    URL of the derivative itself: [cacheUrn] fetches it twice. *)
Theorem other_mime_fetched_twice (token : string) (encodedURN nguid nmime : Value)
    (info : PathInfo) (fetches : list string) :
  getPathInfo encodedURN = Ok info ->
  nmime <> Str "application/autodesk-svf" ->
  nmime <> Str "application/autodesk-f2d" ->
  nmime <> Str "application/autodesk-db" ->
  let it := {| guid := nguid; mime := nmime; path := info |} in
  let entry := {| item := it; files := [ rootFileName info ] |} in
  entryOf service token it = Ok entry
  /\ Worker.pushAll fetches [ asDerivative entry ]
     = fetches ++ [ Worker.derivUrl (asDerivative entry);
                    Worker.derivUrl (asDerivative entry) ].
Proof.
  intros Hinfo H1 H2 H3 it entry. split.
  - now apply (entryOf_other token it).
  - rewrite pushAll_flat. simpl flat_map. do 2 f_equal.
    unfold Worker.fileUrl, Worker.derivUrl, asDerivative. simpl.
    destruct (getPathInfo_shape encodedURN info Hinfo) as (_ & -> & _).
    reflexivity.
Qed.

(** What the server downloads to enumerate the files of an SVF item,
    whatever its list of files, and of an F2D item whose list of files is
    not empty, is among the URLs the worker fetches for the entry of that
    item. *)
Theorem downloads_are_cached (token : string) (it : Item) (entry : Entry)
    (url : string) :
  entryOf service token it = Ok entry ->
  (mime it = Str "application/autodesk-f2d" -> files entry <> []) ->
  In url (requestOf it) ->
  In url (Worker.pushAll [] [ asDerivative entry ]).
Proof.
  intros Hentry Hfiles Hurl. rewrite pushAll_flat. simpl.
  pose proof (entryOf_item token it entry Hentry) as Hitem.
  rewrite requestOf_switch in Hurl. unfold entryOf in Hentry.
  rewrite enumerateFiles_switch in Hentry.
  destruct (mime it) as [| |s]; try contradiction.
  destruct (String.eqb s "application/autodesk-svf").
  { destruct Hurl as [<-|[]]. left.
    unfold Worker.derivUrl, asDerivative. simpl. now rewrite Hitem. }
  destruct (String.eqb s "application/autodesk-f2d") eqn:Ef2d;
    [|contradiction].
  apply String.eqb_eq in Ef2d. rewrite Ef2d in Hfiles.
  specialize (Hfiles eq_refl).
  destruct Hurl as [<-|[]]. right.
  unfold getDerivativesF2D, await, getDerivative, lift in Hentry.
  simpl in Hentry.
  destruct (service _ _) as [data|e]; [|discriminate]. simpl in Hentry.
  destruct (gunzipSync data) as [text|e]; [|discriminate]. simpl in Hentry.
  destruct (JSON_parse text) as [manifest|e]; [|discriminate].
  simpl in Hentry.
  destruct (assets manifest) as [l|]; simpl in Hentry;
    injection Hentry as <-; [|now contradiction Hfiles].
  apply in_or_app. left. apply in_map_iff. exists "manifest.json.gz".
  split; [reflexivity|]. simpl. apply in_or_app. right. now left.
Qed.

End RouteAndWorker.

Lemma other_mime_fetched_twice_witness :
  Worker.pushAll []
    [ Routes.asDerivative
        (Routes.mkEntry
           (Models.mkItem (Str "g3") (Str "image/png")
              (Models.mkPathInfo "dm/output/preview.png" "preview.png" ""
                 "dm/output/"))
           [ "preview.png" ]) ]
  = [ Worker.baseUrl +++ "/derivatives/dm%2Foutput%2Fpreview.png";
      Worker.baseUrl +++ "/derivatives/dm%2Foutput%2Fpreview.png" ].
Proof.
  exact (proj2 (other_mime_fetched_twice Models.offline "token"
                  (Str "dm/output/preview.png") (Str "g3") (Str "image/png")
                  (Models.mkPathInfo "dm/output/preview.png" "preview.png" ""
                     "dm/output/") []
                  eq_refl ltac:(discriminate) ltac:(discriminate)
                  ltac:(discriminate))).
Defined.

Lemma downloads_are_cached_witness :
  In (Models.BaseUrl +++ "/derivativeservice/v2/derivatives/"
        +++ "dm%2Foutput%2F2%2Fmanifest.json.gz")
    (Worker.pushAll []
       [ Routes.asDerivative
           (Routes.mkEntry Routes.f2dItem
              [ "primaryGraphics.f2d"; "manifest.json.gz" ]) ]).
Proof.
  apply (downloads_are_cached Routes.f2dService "token" Routes.f2dItem
           (Routes.mkEntry Routes.f2dItem
              [ "primaryGraphics.f2d"; "manifest.json.gz" ])).
  - reflexivity.
  - discriminate.
  - left. reflexivity.
Defined.

